(** * The game-state reducer of the thirty-challenge session core

    A shallow embedding of

    - [gameReducer] (src/context/gameReducer.ts), the immer recipe that maps a
      state and an action to the next state;
    - [mapRecordToState] and the [onGameStateUpdate] callback of
      [GameProvider] (src/context/GameContext.tsx);
    - the actions that the helpers of [useGame] dispatch and the values they
      compute for the database (same file);
    - the guards of the [FinalScores] and [SegmentIntro] pages, and the
      status log and the players effect of the lobby page
      (src/pages/Lobby.tsx).

    Modelling conventions.

    - A JavaScript number that the program uses as a counter (timer, score,
      strikes, question index) is a [Z]; the program does no arithmetic on
      them beyond [+ 1], [- 1], [+ points] and [> 0].
    - An object used as a dictionary ([players], [specialButtons],
      [segmentSettings]) is a [gmap string _]; [obj[k] = v] is [<[k:=v]>],
      [obj[k]] is [!!], and reading a property of the [undefined] that a
      missing key yields raises a TypeError.  The model is meant for keys
      that are not names inherited from [Object.prototype]
      ([objectPrototypeNames]): for those a read finds the inherited member
      and an assignment to [__proto__] goes to a setter.
    - The reducer returns [option GameState]: [None] stands for the TypeError
      that escapes [produce]; [Some s] is the state [produce] returns.
    - String-literal union types ([GamePhase], [SegmentCode], [PlayerId]),
      whose declarations live in [@/types/game], are strings.
    - [T | null] and optional properties are [option T].
    - The helpers of [useGame] name [gameSyncRef], which is declared in
      [GameProvider] only: a helper runs up to its database call and stops
      at the broadcast line with a ReferenceError, so only what comes before
      that line is modelled.                                                *)

From stdpp Require Import base option strings list gmap fin_maps.
From Stdlib Require Import ZArith Lia.

Local Open Scope string_scope.
Local Open Scope Z_scope.

(** ** Data model *)

Abbreviation PlayerId := string (only parsing).
Abbreviation GamePhase := string (only parsing).
Abbreviation SegmentCode := string (only parsing).

Record Player := mkPlayer {
  id : PlayerId;
  name : string;
  score : Z;
  strikes : option Z;
  specialButtons : gmap string bool;
  flag : option string;
  club : option string;
  isConnected : bool;
}.

(** [Partial<Player>]: every property may be missing. *)
Record PartialPlayer := mkPartialPlayer {
  p_id : option PlayerId;
  p_name : option string;
  p_score : option Z;
  p_strikes : option (option Z);
  p_specialButtons : option (gmap string bool);
  p_flag : option (option string);
  p_club : option (option string);
  p_isConnected : option bool;
}.

Record ScoreEvent := mkScoreEvent {
  ev_playerId : PlayerId;
  ev_points : Z;
  ev_timestamp : Z;
  ev_reason : option string;
}.

Record GameState := mkGameState {
  gameId : string;
  hostCode : string;
  hostName : option string;
  phase : GamePhase;
  currentSegment : option SegmentCode;
  currentQuestionIndex : Z;
  videoRoomUrl : option string;
  videoRoomCreated : bool;
  timer : Z;
  isTimerRunning : bool;
  segmentSettings : gmap SegmentCode Z;
  players : gmap PlayerId Player;
  scoreHistory : list ScoreEvent;
}.

(** [Partial<GameState>], the shape of a remote delta. *)
Record PartialGameState := mkPartialGameState {
  d_gameId : option string;
  d_hostCode : option string;
  d_hostName : option (option string);
  d_phase : option GamePhase;
  d_currentSegment : option (option SegmentCode);
  d_currentQuestionIndex : option Z;
  d_videoRoomUrl : option (option string);
  d_videoRoomCreated : option bool;
  d_timer : option Z;
  d_isTimerRunning : option bool;
  d_segmentSettings : option (gmap SegmentCode Z);
  d_players : option (gmap PlayerId Player);
  d_scoreHistory : option (list ScoreEvent);
}.

(** The columns of a stored game record that [mapRecordToState] reads.  A
    record comes from the database as it is: any column may be missing or
    null, which is [None]. *)
Record GameRecord := mkGameRecord {
  r_id : option string;
  r_host_code : option string;
  r_host_name : option string;
  r_phase : option string;
  r_current_segment : option string;
  r_current_question_index : option Z;
  r_video_room_url : option string;
  r_video_room_created : option bool;
  r_timer : option Z;
  r_is_timer_running : option bool;
  r_segment_settings : option (gmap string Z);
}.

(** The object that [mapRecordToState] builds.  It is declared a [GameState],
    but a property copied from a column that the record lacks holds no value
    ([undefined], or [null] for the host name): [None]. *)
Record LoadedState := mkLoadedState {
  l_gameId : option string;
  l_hostCode : option string;
  l_hostName : option string;
  l_phase : option GamePhase;
  l_currentSegment : option SegmentCode;
  l_currentQuestionIndex : option Z;
  l_videoRoomUrl : option string;
  l_videoRoomCreated : option bool;
  l_timer : option Z;
  l_isTimerRunning : option bool;
  l_segmentSettings : option (gmap SegmentCode Z);
  l_players : gmap PlayerId Player;
  l_scoreHistory : list ScoreEvent;
}.

(** The loaded object read at its declared type: it is a [GameState] when
    every property that the type makes mandatory holds a value. *)
Definition asGameState (l : LoadedState) : option GameState :=
  match l_gameId l, l_hostCode l, l_phase l, l_currentQuestionIndex l,
        l_videoRoomCreated l, l_timer l, l_isTimerRunning l, l_segmentSettings l with
  | Some gid, Some hcode, Some ph, Some qi, Some created, Some t, Some running,
    Some settings =>
      Some (mkGameState gid hcode (l_hostName l) ph (l_currentSegment l) qi
              (l_videoRoomUrl l) created t running settings
              (l_players l) (l_scoreHistory l))
  | _, _, _, _, _, _, _, _ => None
  end.

(** A record that has every column the state type makes mandatory. *)
Definition completeRecord (r : GameRecord) : Prop :=
  is_Some (r_id r) ∧ is_Some (r_host_code r) ∧ is_Some (r_phase r)
  ∧ is_Some (r_current_question_index r) ∧ is_Some (r_video_room_created r)
  ∧ is_Some (r_timer r) ∧ is_Some (r_is_timer_running r)
  ∧ is_Some (r_segment_settings r).

(** The actions.  The first group is the reducer's own union; the second is
    the part of the imported [SpecAction] union that the reducer switches on;
    the third is the part of it that [useGame] dispatches and for which the
    switch has no case. *)
Inductive GameAction :=
  | INIT (payload : GameState)
  | SET_PHASE (ph : GamePhase)
  | SET_CURRENT_SEGMENT (segment : option SegmentCode)
  | ADD_PLAYER (player : Player)
  | UPDATE_PLAYER (pid : PlayerId) (partial : PartialPlayer)
  | UPDATE_TIMER (t : Z) (isRunning : bool)
  | PUSH_SCORE_EVENT (event : ScoreEvent)
  | RESET_STRIKES
  | COMPLETE_GAME
  | NEXT_QUESTION
  | NEXT_SEGMENT
  | UPDATE_SCORE (playerId : PlayerId) (points : Z)
  | ADD_STRIKE (playerId : PlayerId)
  | USE_SPECIAL_BUTTON (playerId : PlayerId) (buttonType : string)
  | START_TIMER (duration : Z)
  | STOP_TIMER
  | TICK_TIMER
  | RESET_GAME
  | START_GAME (gid : string) (hcode : string)
  | JOIN_GAME (playerId : PlayerId) (playerData : PartialPlayer)
  | UPDATE_HOST_NAME (hname : string)
  | UPDATE_SEGMENT_SETTINGS (settings : gmap SegmentCode Z)
  | ADVANCE_QUESTION.

(** ** Assignments to the draft *)

Definition set_phase (v : GamePhase) (s : GameState) : GameState :=
  mkGameState (gameId s) (hostCode s) (hostName s) v (currentSegment s)
    (currentQuestionIndex s) (videoRoomUrl s) (videoRoomCreated s) (timer s)
    (isTimerRunning s) (segmentSettings s) (players s) (scoreHistory s).

Definition set_currentSegment (v : option SegmentCode) (s : GameState) : GameState :=
  mkGameState (gameId s) (hostCode s) (hostName s) (phase s) v
    (currentQuestionIndex s) (videoRoomUrl s) (videoRoomCreated s) (timer s)
    (isTimerRunning s) (segmentSettings s) (players s) (scoreHistory s).

Definition set_currentQuestionIndex (v : Z) (s : GameState) : GameState :=
  mkGameState (gameId s) (hostCode s) (hostName s) (phase s) (currentSegment s)
    v (videoRoomUrl s) (videoRoomCreated s) (timer s)
    (isTimerRunning s) (segmentSettings s) (players s) (scoreHistory s).

Definition set_timer (v : Z) (s : GameState) : GameState :=
  mkGameState (gameId s) (hostCode s) (hostName s) (phase s) (currentSegment s)
    (currentQuestionIndex s) (videoRoomUrl s) (videoRoomCreated s) v
    (isTimerRunning s) (segmentSettings s) (players s) (scoreHistory s).

Definition set_isTimerRunning (v : bool) (s : GameState) : GameState :=
  mkGameState (gameId s) (hostCode s) (hostName s) (phase s) (currentSegment s)
    (currentQuestionIndex s) (videoRoomUrl s) (videoRoomCreated s) (timer s)
    v (segmentSettings s) (players s) (scoreHistory s).

Definition set_players (v : gmap PlayerId Player) (s : GameState) : GameState :=
  mkGameState (gameId s) (hostCode s) (hostName s) (phase s) (currentSegment s)
    (currentQuestionIndex s) (videoRoomUrl s) (videoRoomCreated s) (timer s)
    (isTimerRunning s) (segmentSettings s) v (scoreHistory s).

Definition set_scoreHistory (v : list ScoreEvent) (s : GameState) : GameState :=
  mkGameState (gameId s) (hostCode s) (hostName s) (phase s) (currentSegment s)
    (currentQuestionIndex s) (videoRoomUrl s) (videoRoomCreated s) (timer s)
    (isTimerRunning s) (segmentSettings s) (players s) v.

Definition set_score (v : Z) (p : Player) : Player :=
  mkPlayer (id p) (name p) v (strikes p) (specialButtons p) (flag p) (club p)
    (isConnected p).

Definition set_strikes (v : option Z) (p : Player) : Player :=
  mkPlayer (id p) (name p) (score p) v (specialButtons p) (flag p) (club p)
    (isConnected p).

Definition set_specialButtons (v : gmap string bool) (p : Player) : Player :=
  mkPlayer (id p) (name p) (score p) (strikes p) v (flag p) (club p)
    (isConnected p).

(** [p.strikes = 0] *)
Definition zeroStrikes (p : Player) : Player := set_strikes (Some 0) p.

(** [Object.values(draft.players).forEach((p) => { p.strikes = 0; })] *)
Definition resetAllStrikes (ps : gmap PlayerId Player) : gmap PlayerId Player :=
  zeroStrikes <$> ps.

(** [player.strikes || 0]: [undefined] and [0] are both falsy. *)
Definition strikesOrZero (p : Player) : Z :=
  match strikes p with
  | Some n => if decide (n = 0) then 0 else n
  | None => 0
  end.

(** [Object.assign(player, partial)]: each property present in [partial]
    overwrites the player's. *)
Definition assignPlayer (p : Player) (q : PartialPlayer) : Player :=
  mkPlayer
    (default (id p) (p_id q))
    (default (name p) (p_name q))
    (default (score p) (p_score q))
    (default (strikes p) (p_strikes q))
    (default (specialButtons p) (p_specialButtons q))
    (default (flag p) (p_flag q))
    (default (club p) (p_club q))
    (default (isConnected p) (p_isConnected q)).

(** [{ ...state, ...gs }]: each property present in [gs] overwrites the
    state's. *)
Definition spread (state : GameState) (gs : PartialGameState) : GameState :=
  mkGameState
    (default (gameId state) (d_gameId gs))
    (default (hostCode state) (d_hostCode gs))
    (default (hostName state) (d_hostName gs))
    (default (phase state) (d_phase gs))
    (default (currentSegment state) (d_currentSegment gs))
    (default (currentQuestionIndex state) (d_currentQuestionIndex gs))
    (default (videoRoomUrl state) (d_videoRoomUrl gs))
    (default (videoRoomCreated state) (d_videoRoomCreated gs))
    (default (timer state) (d_timer gs))
    (default (isTimerRunning state) (d_isTimerRunning gs))
    (default (segmentSettings state) (d_segmentSettings gs))
    (default (players state) (d_players gs))
    (default (scoreHistory state) (d_scoreHistory gs)).

(** The [onGameStateUpdate] callback that [GameProvider] hands to
    [createGameSync]: [state] is the provider's state as the effect closure
    captured it, [gs] the delta delivered by the channel. *)
Definition onGameStateUpdate (state : GameState) (gs : PartialGameState) : GameAction :=
  INIT (spread state gs).

(** The three fixed player slots. *)
Definition fixedKeys : gset PlayerId := {[ "host"; "playerA"; "playerB" ]}.

(** The delta with no property at all, and the delta [{timer: t}]. *)
Definition emptyDelta : PartialGameState :=
  mkPartialGameState None None None None None None None None None None None None None.

Definition timerDelta (t : Z) : PartialGameState :=
  mkPartialGameState None None None None None None None None (Some t) None None None None.

(** ** Constants that live outside the translated files *)

(** Modelled from the spec: [defaultPlayers] (imported from [./defaults],
    which is not among the sources).  The spec fixes the three slots host,
    playerA and playerB; a fresh slot has no name, score 0, no strikes and is
    not connected. *)
Definition freshPlayer (k : PlayerId) : Player :=
  mkPlayer k "" 0 (Some 0) ∅ None None false.

Definition specDefaultPlayers : gmap PlayerId Player :=
  <["host" := freshPlayer "host"]>
    (<["playerA" := freshPlayer "playerA"]>
       (<["playerB" := freshPlayer "playerB"]> ∅)).

(** Modelled from the spec: [initialGameState] (imported from
    [./initialGameState], which is not among the sources).  The spec creates
    the state in phase CONFIG with the default players and an empty history;
    the counters start at zero and no segment is selected. *)
Definition specInitialGameState : GameState :=
  mkGameState "" "" None "CONFIG" None 0 None false 0 false ∅
    specDefaultPlayers [].

(** ** States and deltas used in the worked scenarios *)

(** A session in play with thirty seconds on the clock. *)
Definition playingState : GameState :=
  mkGameState "g1" "H1" (Some "host") "PLAYING" (Some "WSHA") 2 None false 30 true ∅
    specDefaultPlayers [].

(** A finished session: five seconds left on a stopped clock. *)
Definition completedState : GameState :=
  mkGameState "g1" "H1" (Some "host") "COMPLETED" (Some "REMO") 4 None false 5 false ∅
    specDefaultPlayers [].

(** The same session as the provider's effect saw it when the game id was
    set: still in the lobby, the clock at zero. *)
Definition lobbyState : GameState :=
  mkGameState "g1" "H1" (Some "host") "LOBBY" None 0 None false 0 false ∅
    specDefaultPlayers [].

(** The partial player [{strikes: n}]. *)
Definition strikesPatch (n : Z) : PartialPlayer :=
  mkPartialPlayer None None None (Some (Some n)) None None None None.

(** A run that touches every kind of player write. *)
Definition sampleRun : list GameAction :=
  [INIT lobbyState; ADD_PLAYER (freshPlayer "playerB"); ADD_STRIKE "playerA";
   UPDATE_SCORE "playerB" 10; NEXT_QUESTION; USE_SPECIAL_BUTTON "host" "LOCK";
   UPDATE_PLAYER "playerA" (strikesPatch 2); RESET_GAME; TICK_TIMER].

(** A delta of the shape that [updateScore] writes for the peers,
    [{ players: { [playerId]: { score: newScore } } }], as far as the key set
    of its [players] object goes. *)
Definition scoreDelta (playerId : PlayerId) (newScore : Z) : PartialGameState :=
  mkPartialGameState None None None None None None None None None None None
    (Some {[ playerId := set_score newScore (freshPlayer playerId) ]}) None.

Definition sampleRecord : GameRecord :=
  mkGameRecord (Some "g1") (Some "H1") None (Some "LOBBY") None (Some 0) None
    (Some false) (Some 0) (Some false) (Some ∅).

(** The same record without its timer column. *)
Definition recordWithoutTimer : GameRecord :=
  mkGameRecord (Some "g1") (Some "H1") None (Some "LOBBY") None (Some 0) None
    (Some false) None (Some false) (Some ∅).

(** ** Observations on states and actions *)

(** The strikes of every slot. *)
Definition strikesMap (s : GameState) : gmap PlayerId (option Z) :=
  strikes <$> players s.

(** No slot holds a negative strike count. *)
Definition strikesNonneg (s : GameState) : Prop :=
  ∀ (k : PlayerId) (n : Z), strikesMap s !! k = Some (Some n) → 0 ≤ n.

(** A field of the result of a merge: the delta's value where the delta has
    the property, the base value where it has not. *)
Definition merged {A} (base : A) (delta : option A) (result : A) : Prop :=
  match delta with
  | Some v => result = v
  | None => result = base
  end.

(** The timer value an action carries, if any, is not negative. *)
Definition timerInputNonneg (a : GameAction) : Prop :=
  match a with
  | INIT payload => 0 ≤ timer payload
  | START_TIMER duration => 0 ≤ duration
  | UPDATE_TIMER t _ => 0 ≤ t
  | _ => True
  end.

(** The [players] object an action carries has the three fixed keys, and a
    player it carries sits in one of them. *)
Definition keepsSlots (a : GameAction) : Prop :=
  match a with
  | INIT payload => dom (players payload) = fixedKeys
  | ADD_PLAYER player => id player ∈ fixedKeys
  | _ => True
  end.

(** The player an action addresses is one of the three fixed slots. *)
Definition addressesSlot (a : GameAction) : Prop :=
  match a with
  | UPDATE_PLAYER k _ | UPDATE_SCORE k _ | ADD_STRIKE k | USE_SPECIAL_BUTTON k _ =>
      k ∈ fixedKeys
  | _ => True
  end.

(** The actions that carry player data of their own. *)
Definition carriesPlayers (a : GameAction) : bool :=
  match a with
  | INIT _ | ADD_PLAYER _ | UPDATE_PLAYER _ _ => true
  | _ => false
  end.

(** The actions that assign the phase from their payload or from the
    initial state. *)
Definition assignsPhase (a : GameAction) : bool :=
  match a with
  | INIT _ | SET_PHASE _ | RESET_GAME => true
  | _ => false
  end.

(** The actions of the imported union for which the switch has no case. *)
Definition unhandled (a : GameAction) : bool :=
  match a with
  | START_GAME _ _ | JOIN_GAME _ _ | UPDATE_HOST_NAME _
  | UPDATE_SEGMENT_SETTINGS _ | ADVANCE_QUESTION => true
  | _ => false
  end.

(** The player an action reads from [draft.players] before writing to it. *)
Definition addressedPlayer (a : GameAction) : option PlayerId :=
  match a with
  | UPDATE_PLAYER k _ | UPDATE_SCORE k _ | ADD_STRIKE k | USE_SPECIAL_BUTTON k _ =>
      Some k
  | _ => None
  end.

(** The actions whose case returns a whole state instead of editing the
    draft. *)
Definition replacesState (a : GameAction) : bool :=
  match a with
  | INIT _ | RESET_GAME => true
  | _ => false
  end.

(** The actions that can put a whole player, or arbitrary player fields, into
    the state. *)
Definition writesPlayers (a : GameAction) : bool :=
  match a with
  | INIT _ | ADD_PLAYER _ | UPDATE_PLAYER _ _ | RESET_GAME => true
  | _ => false
  end.

(** The actions that dispatched twice in a row leave what one dispatch
    leaves. *)
Definition repeatable (a : GameAction) : bool :=
  match a with
  | NEXT_QUESTION | UPDATE_SCORE _ _ | ADD_STRIKE _ | TICK_TIMER
  | PUSH_SCORE_EVENT _ => false
  | _ => true
  end.

(** The events that the PUSH_SCORE_EVENT actions of a run carry, in order. *)
Fixpoint pushedEvents (acts : list GameAction) : list ScoreEvent :=
  match acts with
  | [] => []
  | PUSH_SCORE_EVENT event :: rest => event :: pushedEvents rest
  | _ :: rest => pushedEvents rest
  end.

(** [state.players[k].specialButtons[bt]], where both lookups may miss. *)
Definition buttonState (s : GameState) (k : PlayerId) (bt : string) : option bool :=
  players s !! k ≫= λ p, specialButtons p !! bt.

(** The partial player [{}]. *)
Definition emptyPatch : PartialPlayer :=
  mkPartialPlayer None None None None None None None None.

(** The names that every plain object inherits from [Object.prototype].
    Reading such a name from [players] finds the inherited member even when
    the object has no such key of its own, and assigning [__proto__] goes to
    a setter; the map model of [players] is meant for the other names. *)
Definition objectPrototypeNames : list string :=
  ["__proto__"; "constructor"; "hasOwnProperty"; "isPrototypeOf";
   "propertyIsEnumerable"; "toLocaleString"; "toString"; "valueOf";
   "__defineGetter__"; "__defineSetter__"; "__lookupGetter__";
   "__lookupSetter__"].


(** The provider's effect depends on [state.gameId] alone: an action that
    leaves the game id as the effect saw it does not make the effect run
    again, so the callback of that run stays the one in use. *)
Definition keepsGameId (captured : GameState) (a : GameAction) : Prop :=
  match a with
  | INIT payload => gameId payload = gameId captured
  | RESET_GAME => False
  | _ => True
  end.

(** ** The helpers of [useGame] *)

(** [const order: SegmentCode[] = ['WSHA', 'AUCT', 'BELL', 'SING', 'REMO']] *)
Definition segmentOrder : list SegmentCode :=
  ["WSHA"; "AUCT"; "BELL"; "SING"; "REMO"].

(** [Array.prototype.indexOf]: the first index that holds [x], or [-1]. *)
Fixpoint indexOfFrom (l : list string) (x : string) (i : Z) : Z :=
  match l with
  | [] => -1
  | y :: rest => if decide (y = x) then i else indexOfFrom rest x (i + 1)
  end.

Definition indexOf (l : list string) (x : string) : Z := indexOfFrom l x 0.

(** [state.currentSegment ? order.indexOf(state.currentSegment) + 1 : 0];
    [null] and the empty string are falsy. *)
Definition nextSegmentIndex (cur : option SegmentCode) : Z :=
  match cur with
  | Some c => if decide (c = "") then 0 else indexOf segmentOrder c + 1
  | None => 0
  end.

(** [idx < order.length ? order[idx] : null] *)
Definition nextSegmentCode (cur : option SegmentCode) : option SegmentCode :=
  let idx := nextSegmentIndex cur in
  if decide (idx < Z.of_nat (length segmentOrder))
  then segmentOrder !! Z.to_nat idx
  else None.

(** The two actions that [actions.nextSegment] dispatches. *)
Definition nextSegment_dispatched (state : GameState) : list GameAction :=
  [NEXT_SEGMENT; SET_CURRENT_SEGMENT (nextSegmentCode (currentSegment state))].




(** ** The pages that read the state *)

(** The status log of the lobby page, as [showAlertMessage] updates it:
    [[entry, ...prev.slice(0, 9)]]. *)
Definition pushStatusLog (entry : string) (prev : list string) : list string :=
  entry :: take 9 prev.


(** [FinalScores]: [if (state.phase !== 'COMPLETED') return null;] *)
Definition finalScoresRenders (state : GameState) : bool :=
  bool_decide (phase state = "COMPLETED").

(** [SegmentIntro]: [if (!state.currentSegment) return null;] *)
Definition segmentIntroRenders (state : GameState) : bool :=
  match currentSegment state with
  | Some c => bool_decide (c ≠ "")
  | None => false
  end.

(** The two refs that the lobby page keeps across renders. *)
Record LobbyRefs := mkLobbyRefs {
  previousConnectedPlayerIds : gset string;
  hasShownSessionStartModal : bool;
}.

(** [Object.values(state.players)]; the list comes in the order of the map,
    which the properties below do not depend on. *)
Definition objectValues (ps : gmap PlayerId Player) : list Player :=
  (map_to_list ps).*2.

(** [Object.values(state.players).filter(p => p.isConnected && p.name)] *)
Definition currentConnectedPlayers (state : GameState) : list Player :=
  filter (λ p, isConnected p = true ∧ name p ≠ "") (objectValues (players state)).

(** One run of the lobby page's effect on the players: the players it raises
    a joined alert for, whether it opens the session-start modal, and the
    refs it leaves.  It does something for the host PC only. *)
Definition playersEffect (isHostPc : bool) (state : GameState) (refs : LobbyRefs)
  : list Player * bool * LobbyRefs :=
  if isHostPc then
    let current := currentConnectedPlayers state in
    let joined :=
      filter (λ p, id p ∉ previousConnectedPlayerIds refs) current in
    let opens :=
      bool_decide (1 ≤ length current)%nat && videoRoomCreated state
      && bool_decide (phase state = "LOBBY")
      && negb (hasShownSessionStartModal refs) in
    (joined, opens,
     mkLobbyRefs (list_to_set (id <$> current))
       (hasShownSessionStartModal refs || opens))
  else ([], false, refs).

(** What happens on the lobby page between two looks at the refs: a run of
    the players effect, with whether the participant of that render is the
    host PC and the state of that render; the session-start modal closed
    ([onClose], which also clears the ref); or the modal confirmed
    ([handleStartSession], which leaves the ref alone). *)
Inductive LobbyEvent :=
  | PlayersEffectRun (isHostPc : bool) (state : GameState)
  | SessionModalClosed
  | SessionModalConfirmed.

(** How many times the effect opens the session-start modal
    ([setShowSessionStartModal(true)]) over a list of events. *)
Fixpoint lobbyOpens (refs : LobbyRefs) (events : list LobbyEvent) : nat :=
  match events with
  | [] => 0%nat
  | PlayersEffectRun isHostPc state :: rest =>
      let '(_, opens, refs') := playersEffect isHostPc state refs in
      ((if opens then 1 else 0) + lobbyOpens refs' rest)%nat
  | SessionModalClosed :: rest =>
      lobbyOpens (mkLobbyRefs (previousConnectedPlayerIds refs) false) rest
  | SessionModalConfirmed :: rest => lobbyOpens refs rest
  end.

(** How many times the modal is closed over a list of events. *)
Fixpoint modalCloses (events : list LobbyEvent) : nat :=
  match events with
  | [] => 0%nat
  | SessionModalClosed :: rest => S (modalCloses rest)
  | _ :: rest => modalCloses rest
  end.

(** No run of the effect in the list is on the host PC's page. *)
Definition noHostPcRun (events : list LobbyEvent) : Prop :=
  Forall (λ ev, match ev with
                | PlayersEffectRun isHostPc _ => isHostPc = false
                | _ => True
                end) events.

(** ** The reducer and the load mapping *)

Section Reducer.

(** [initialGameState] and [defaultPlayers] are imported constants; the
    development is parametric in them. *)
Variable initialGameState : GameState.
Variable defaultPlayers : gmap PlayerId Player.

(** [gameReducer(state, action)]: the recipe's assignments, in source order,
    applied to a copy of [state]; a returned value replaces the state. *)
Definition gameReducer (state : GameState) (action : GameAction) : option GameState :=
  match action with
  | INIT payload => Some payload
  | SET_PHASE ph =>
      let draft := set_phase ph state in
      Some (if decide (ph = "CONFIG") then set_currentSegment None draft else draft)
  | SET_CURRENT_SEGMENT segment =>
      Some (set_isTimerRunning false
             (set_timer 0
               (set_currentQuestionIndex 0
                 (set_currentSegment segment state))))
  | NEXT_QUESTION =>
      let draft := set_currentQuestionIndex (currentQuestionIndex state + 1) state in
      let draft := set_timer 0 draft in
      let draft := set_isTimerRunning false draft in
      Some (set_players (resetAllStrikes (players draft)) draft)
  | NEXT_SEGMENT =>
      let draft := set_currentQuestionIndex 0 state in
      let draft := set_timer 0 draft in
      let draft := set_isTimerRunning false draft in
      Some (set_players (resetAllStrikes (players draft)) draft)
  | ADD_PLAYER player =>
      Some (set_players (<[id player := player]> (players state)) state)
  | UPDATE_PLAYER pid partial =>
      match players state !! pid with
      | Some player =>
          Some (set_players (<[pid := assignPlayer player partial]> (players state)) state)
      | None => None
      end
  | UPDATE_SCORE playerId points =>
      match players state !! playerId with
      | Some player =>
          Some (set_players
                  (<[playerId := set_score (score player + points) player]> (players state))
                  state)
      | None => None
      end
  | ADD_STRIKE playerId =>
      match players state !! playerId with
      | Some player =>
          Some (set_players
                  (<[playerId := set_strikes (Some (strikesOrZero player + 1)) player]>
                     (players state))
                  state)
      | None => None
      end
  | USE_SPECIAL_BUTTON playerId buttonType =>
      match players state !! playerId with
      | Some player =>
          Some (set_players
                  (<[playerId :=
                       set_specialButtons (<[buttonType := false]> (specialButtons player)) player]>
                     (players state))
                  state)
      | None => None
      end
  | START_TIMER duration =>
      Some (set_isTimerRunning true (set_timer duration state))
  | STOP_TIMER =>
      Some (set_isTimerRunning false (set_timer 0 state))
  | TICK_TIMER =>
      Some (if decide (timer state > 0) then set_timer (timer state - 1) state else state)
  | RESET_GAME => Some initialGameState
  | UPDATE_TIMER t isRunning =>
      Some (set_isTimerRunning isRunning (set_timer t state))
  | PUSH_SCORE_EVENT event =>
      Some (set_scoreHistory (scoreHistory state ++ [event]) state)
  | RESET_STRIKES =>
      Some (set_players (resetAllStrikes (players state)) state)
  | COMPLETE_GAME =>
      Some (set_isTimerRunning false (set_phase "COMPLETED" state))
  | START_GAME _ _ | JOIN_GAME _ _ | UPDATE_HOST_NAME _
  | UPDATE_SEGMENT_SETTINGS _ | ADVANCE_QUESTION => Some state
  end.

(** Dispatching a list of actions one after the other; a TypeError stops the
    run. *)
Fixpoint dispatchAll (state : GameState) (actions : list GameAction) : option GameState :=
  match actions with
  | [] => Some state
  | a :: rest =>
      match gameReducer state a with
      | Some state' => dispatchAll state' rest
      | None => None
      end
  end.

(** [mapRecordToState(record)]: the spread of [initialGameState] first, then
    one property for each column and [players], each written whether or not
    the column has a value; [record.host_name ?? null] and
    [record.video_room_url ?? undefined] have no value when the column has
    none.  Of the spread only [scoreHistory] is not overwritten. *)
Definition mapRecordToState (record : GameRecord) : LoadedState :=
  mkLoadedState
    (r_id record)
    (r_host_code record)
    (r_host_name record)
    (r_phase record)
    (r_current_segment record)
    (r_current_question_index record)
    (r_video_room_url record)
    (r_video_room_created record)
    (r_timer record)
    (r_is_timer_running record)
    (r_segment_settings record)
    defaultPlayers
    (scoreHistory initialGameState).

(** Case analysis on the action of a returned reduction [H : gameReducer s a
    = Some s']: one goal per case of the switch, with [s'] replaced by the
    state the case builds and the cases that throw discarded. *)
Ltac reducer_cases a H :=
  destruct a; cbn in H; repeat case_match; simplify_eq; cbn.

(** ** Setters and their projections *)

Lemma set_timer_id (s : GameState) : set_timer (timer s) s = s.
Proof. by destruct s. Qed.

Lemma set_timer_twice (v w : Z) (s : GameState) :
  set_timer v (set_timer w s) = set_timer v s.
Proof. by destruct s. Qed.

Lemma strikesMap_zeroed (ps : gmap PlayerId Player) :
  strikes <$> resetAllStrikes ps = (λ _, Some 0) <$> (strikes <$> ps).
Proof.
  apply map_eq; intros k. unfold resetAllStrikes.
  rewrite !lookup_fmap. by destruct (ps !! k).
Qed.

Lemma strikesMap_insert_same (ps : gmap PlayerId Player) (k : PlayerId) (p q : Player) :
  ps !! k = Some p → strikes q = strikes p →
  strikes <$> <[k := q]> ps = strikes <$> ps.
Proof.
  intros Hk Hq. rewrite fmap_insert, Hq.
  apply insert_id. by rewrite lookup_fmap, Hk.
Qed.

Lemma resetAllStrikes_lookup (ps : gmap PlayerId Player) (k : PlayerId) (p : Player) :
  resetAllStrikes ps !! k = Some p → strikes p = Some 0.
Proof.
  unfold resetAllStrikes. rewrite lookup_fmap.
  destruct (ps !! k) as [q|]; simpl; [|done].
  intros [= <-]. done.
Qed.

(** ** The timer *)

(** Ticking [n] times from a non-negative timer counts down to zero and stays
    there; nothing but the timer moves. *)
Lemma tick_many (n : nat) (s : GameState) :
  0 ≤ timer s →
  dispatchAll s (replicate n TICK_TIMER)
  = Some (set_timer (Z.max 0 (timer s - Z.of_nat n)) s).
Proof.
  revert s. induction n as [|n IH]; intros s Hs.
  - simpl. f_equal. replace (Z.max 0 (timer s - Z.of_nat 0)) with (timer s) by lia.
    symmetry. apply set_timer_id.
  - cbn [replicate dispatchAll gameReducer]. case_decide as Hpos.
    + rewrite IH by (destruct s; simpl in *; lia).
      f_equal. rewrite set_timer_twice. f_equal. destruct s; simpl in *. lia.
    + rewrite IH by done. f_equal. f_equal. lia.
Qed.

(** C10 (UPDATE_TIMER): the reducer has a case for UPDATE_TIMER; for every
    state, integer [t] and boolean [b] it returns a state whose timer is
    exactly [t] and whose isTimerRunning is exactly [b], whatever the sign of
    [t], and every other field is the one of the state it was given. *)
Theorem C10_update_timer_frame (s : GameState) (t : Z) (b : bool) :
  ∃ s', gameReducer s (UPDATE_TIMER t b) = Some s'
    ∧ timer s' = t ∧ isTimerRunning s' = b
    ∧ gameId s' = gameId s ∧ hostCode s' = hostCode s ∧ hostName s' = hostName s
    ∧ phase s' = phase s ∧ currentSegment s' = currentSegment s
    ∧ currentQuestionIndex s' = currentQuestionIndex s
    ∧ videoRoomUrl s' = videoRoomUrl s ∧ videoRoomCreated s' = videoRoomCreated s
    ∧ segmentSettings s' = segmentSettings s ∧ players s' = players s
    ∧ scoreHistory s' = scoreHistory s.
Proof. eexists. split; [reflexivity|]. repeat split. Qed.

(** C8 (COMPLETE_GAME): for every state, COMPLETE_GAME returns a state whose
    phase is COMPLETED and whose timer is stopped (isTimerRunning is false);
    the seconds left on the timer and every other field stay as they were. *)
Theorem C8_complete_game (s : GameState) :
  ∃ s', gameReducer s COMPLETE_GAME = Some s'
    ∧ phase s' = "COMPLETED" ∧ isTimerRunning s' = false
    ∧ timer s' = timer s ∧ players s' = players s
    ∧ currentSegment s' = currentSegment s
    ∧ currentQuestionIndex s' = currentQuestionIndex s
    ∧ scoreHistory s' = scoreHistory s.
Proof. eexists. split; [reflexivity|]. repeat split. Qed.

(** C6 (scenario A, timer): from any state with timer 0 and a stopped timer,
    START_TIMER(30) gives timer 30 and a running timer; thirty TICK_TIMER then
    give timer 0; one more TICK_TIMER leaves it at 0.  TICK_TIMER decrements
    by one when the timer is positive, returns the state as it is otherwise,
    and never changes isTimerRunning: the timer is still running at zero. *)
Theorem C6_timer_scenario (s : GameState) :
  timer s = 0 → isTimerRunning s = false →
  ∃ s1 s2 s3,
    gameReducer s (START_TIMER 30) = Some s1
    ∧ timer s1 = 30 ∧ isTimerRunning s1 = true
    ∧ dispatchAll s1 (replicate 30 TICK_TIMER) = Some s2
    ∧ timer s2 = 0 ∧ isTimerRunning s2 = true
    ∧ gameReducer s2 TICK_TIMER = Some s3
    ∧ timer s3 = 0 ∧ isTimerRunning s3 = true
    ∧ ∀ u, ∃ u', gameReducer u TICK_TIMER = Some u'
        ∧ (timer u > 0 → timer u' = timer u - 1)
        ∧ (¬ timer u > 0 → u' = u)
        ∧ isTimerRunning u' = isTimerRunning u.
Proof.
  intros _ _.
  eexists _, _, _. split; [reflexivity|].
  split; [reflexivity|]. split; [reflexivity|].
  split; [apply tick_many; simpl; lia|].
  split; [reflexivity|]. split; [reflexivity|].
  split; [reflexivity|]. split; [reflexivity|]. split; [reflexivity|].
  intros u. eexists. split; [reflexivity|].
  case_decide; repeat split; try done; by destruct u.
Qed.

(** ** Strikes *)

Lemma add_strike_present (s : GameState) (k : PlayerId) (p : Player) :
  players s !! k = Some p →
  gameReducer s (ADD_STRIKE k)
  = Some (set_players
            (<[k := set_strikes (Some (strikesOrZero p + 1)) p]> (players s)) s).
Proof. intros Hk. cbn. by rewrite Hk. Qed.

Lemma strikesOrZero_set (n : Z) (p : Player) :
  n ≠ 0 → strikesOrZero (set_strikes (Some n) p) = n.
Proof. intros Hn. unfold strikesOrZero. cbn. by case_decide. Qed.

(** C7 (NEXT_QUESTION, scenario B): for every state NEXT_QUESTION adds one to
    currentQuestionIndex, sets the timer to 0 and isTimerRunning to false, and
    sets the strikes of every player to 0.  In a state where playerA has no
    strike yet, three ADD_STRIKE(playerA) bring playerA to 3 strikes, and one
    NEXT_QUESTION then leaves playerA and playerB with 0 strikes each. *)
Theorem C7_next_question_resets (s : GameState) (pa pb : Player) :
  players s !! "playerA" = Some pa → strikesOrZero pa = 0 →
  players s !! "playerB" = Some pb →
  (∀ u, ∃ u', gameReducer u NEXT_QUESTION = Some u'
     ∧ currentQuestionIndex u' = currentQuestionIndex u + 1
     ∧ timer u' = 0 ∧ isTimerRunning u' = false
     ∧ dom (players u') = dom (players u)
     ∧ ∀ k p, players u' !! k = Some p → strikes p = Some 0)
  ∧ ∃ s3 s4,
      dispatchAll s [ADD_STRIKE "playerA"; ADD_STRIKE "playerA"; ADD_STRIKE "playerA"]
      = Some s3
      ∧ strikesMap s3 !! "playerA" = Some (Some 3)
      ∧ gameReducer s3 NEXT_QUESTION = Some s4
      ∧ strikesMap s4 !! "playerA" = Some (Some 0)
      ∧ strikesMap s4 !! "playerB" = Some (Some 0).
Proof.
  intros Ha Hz Hb. split.
  - intros u. eexists. split; [reflexivity|]. cbn.
    repeat split.
    + unfold resetAllStrikes. apply dom_fmap_L.
    + intros k p. apply resetAllStrikes_lookup.
  - cbn [dispatchAll].
    rewrite (add_strike_present s _ pa Ha), Hz.
    erewrite add_strike_present by (cbn; apply lookup_insert_eq).
    rewrite strikesOrZero_set by lia.
    erewrite add_strike_present by (cbn; apply lookup_insert_eq).
    rewrite strikesOrZero_set by lia.
    eexists _, _. split; [reflexivity|].
    split; [unfold strikesMap; cbn; by rewrite lookup_fmap, lookup_insert_eq|].
    split; [reflexivity|].
    unfold strikesMap, resetAllStrikes; cbn.
    rewrite !lookup_fmap, lookup_insert_eq.
    rewrite !lookup_insert_ne by done. by rewrite Hb.
Qed.

(** ** Loading a stored record *)

Section LoadContract.

(** What the spec says of the imported [defaultPlayers]: they are the three
    fixed slots. *)
Hypothesis defaultPlayers_slots : dom defaultPlayers = fixedKeys.

(** C9 (load contract), as the code has it: for every stored record,
    [mapRecordToState] yields a state whose score history, the one field no
    column feeds, is the initial state's, and whose players map is the
    default players, with the three fixed slots, whatever the record holds.
    Each of the eleven other fields is the record's column and nothing else:
    there is no fallback to the initial state, so a field whose column is
    missing has no value, and the result is a complete state exactly when
    the record has every mandatory column. *)
Theorem C9_map_record_no_fallback (record : GameRecord) :
  l_scoreHistory (mapRecordToState record) = scoreHistory initialGameState
  ∧ l_players (mapRecordToState record) = defaultPlayers
  ∧ dom (l_players (mapRecordToState record)) = fixedKeys
  ∧ size (l_players (mapRecordToState record)) = 3%nat
  ∧ l_gameId (mapRecordToState record) = r_id record
  ∧ l_hostCode (mapRecordToState record) = r_host_code record
  ∧ l_hostName (mapRecordToState record) = r_host_name record
  ∧ l_phase (mapRecordToState record) = r_phase record
  ∧ l_currentSegment (mapRecordToState record) = r_current_segment record
  ∧ l_currentQuestionIndex (mapRecordToState record)
    = r_current_question_index record
  ∧ l_videoRoomUrl (mapRecordToState record) = r_video_room_url record
  ∧ l_videoRoomCreated (mapRecordToState record) = r_video_room_created record
  ∧ l_timer (mapRecordToState record) = r_timer record
  ∧ l_isTimerRunning (mapRecordToState record) = r_is_timer_running record
  ∧ l_segmentSettings (mapRecordToState record) = r_segment_settings record
  ∧ (r_timer record = None →
     l_timer (mapRecordToState record) ≠ Some (timer initialGameState))
  ∧ (r_phase record = None →
     l_phase (mapRecordToState record) ≠ Some (phase initialGameState))
  ∧ (is_Some (asGameState (mapRecordToState record)) ↔ completeRecord record)
  ∧ ∀ s, asGameState (mapRecordToState record) = Some s →
      players s = defaultPlayers
      ∧ scoreHistory s = scoreHistory initialGameState
      ∧ Some (timer s) = r_timer record ∧ Some (phase s) = r_phase record
      ∧ hostName s = r_host_name record
      ∧ videoRoomUrl s = r_video_room_url record.
Proof.
  cbn. split; [done|]. split; [done|]. split; [done|].
  split; [by rewrite <- size_dom, defaultPlayers_slots|].
  do 11 (split; [done|]).
  split; [by intros ->|]. split; [by intros ->|]. split.
  - unfold asGameState, completeRecord, mapRecordToState. cbn.
    destruct record as [c1 c2 c3 c4 c5 c6 c7 c8 c9 c10 c11]. cbn.
    split.
    + intros Hsome.
      destruct c1, c2, c4, c6, c8, c9, c10, c11;
        try (by apply is_Some_None in Hsome); by repeat split.
    + intros (H1 & H2 & H4 & H6 & H8 & H9 & H10 & H11).
      destruct H1 as [? ->], H2 as [? ->], H4 as [? ->], H6 as [? ->],
        H8 as [? ->], H9 as [? ->], H10 as [? ->], H11 as [? ->].
      by eexists.
  - intros s Hs. unfold asGameState, mapRecordToState in Hs. cbn in Hs.
    repeat case_match; simplify_eq. by cbn.
Qed.

End LoadContract.

(** ** Reconciliation through INIT *)

(** C1 (INIT, scenario D), as the code has it: INIT returns its payload as
    the new state, whatever the current state is.  The merge is the caller's:
    when the payload is the delta spread over the current state, every field
    the delta has takes the delta's value and every field it lacks keeps the
    current value; so from any state, timer 30 and phase PLAYING included,
    the delta with timer 12 alone gives timer 12 and leaves phase and players
    as they were. *)
Theorem C1_init_replaces_caller_merges (s : GameState) :
  (∀ payload, gameReducer s (INIT payload) = Some payload)
  ∧ (∀ gs, ∃ s', gameReducer s (onGameStateUpdate s gs) = Some s'
       ∧ merged (gameId s) (d_gameId gs) (gameId s')
       ∧ merged (hostCode s) (d_hostCode gs) (hostCode s')
       ∧ merged (hostName s) (d_hostName gs) (hostName s')
       ∧ merged (phase s) (d_phase gs) (phase s')
       ∧ merged (currentSegment s) (d_currentSegment gs) (currentSegment s')
       ∧ merged (currentQuestionIndex s) (d_currentQuestionIndex gs)
           (currentQuestionIndex s')
       ∧ merged (videoRoomUrl s) (d_videoRoomUrl gs) (videoRoomUrl s')
       ∧ merged (videoRoomCreated s) (d_videoRoomCreated gs) (videoRoomCreated s')
       ∧ merged (timer s) (d_timer gs) (timer s')
       ∧ merged (isTimerRunning s) (d_isTimerRunning gs) (isTimerRunning s')
       ∧ merged (segmentSettings s) (d_segmentSettings gs) (segmentSettings s')
       ∧ merged (players s) (d_players gs) (players s')
       ∧ merged (scoreHistory s) (d_scoreHistory gs) (scoreHistory s'))
  ∧ ∃ s', gameReducer s (onGameStateUpdate s (timerDelta 12)) = Some s'
      ∧ timer s' = 12 ∧ phase s' = phase s ∧ players s' = players s.
Proof.
  split; [done|]. split.
  - intros gs. eexists. split; [reflexivity|].
    destruct gs as [g1 g2 g3 g4 g5 g6 g7 g8 g9 g10 g11 g12 g13]. cbn.
    repeat split;
      match goal with |- merged _ ?d _ => destruct d; reflexivity end.
  - eexists. split; [reflexivity|]. repeat split.
Qed.

(** ** No phase guard *)

(** The reducer never reads the phase: from two states that differ in the
    phase only, an action leads to two results that differ in the phase
    only. *)
Lemma reducer_phase_blind (s : GameState) (a : GameAction) (ph ph' : GamePhase) :
  set_phase ph' <$> gameReducer (set_phase ph s) a
  = set_phase ph' <$> gameReducer s a.
Proof.
  destruct a; cbn; try reflexivity;
    try (destruct (players s !! _); reflexivity);
    repeat case_decide; reflexivity.
Qed.

(** C2 (COMPLETED), as the code has it: no case of the reducer looks at the
    phase.  From a COMPLETED state, the phase stays COMPLETED under every
    action but INIT, SET_PHASE and RESET_GAME; the actions without a case
    return the state as it is; every action changes the state, phase apart,
    as it does from the same state in any other phase. *)
Theorem C2_completed_no_guard (s : GameState) (a : GameAction) (s' : GameState) :
  phase s = "COMPLETED" → gameReducer s a = Some s' →
  (assignsPhase a = false → phase s' = "COMPLETED")
  ∧ (unhandled a = true → s' = s)
  ∧ ∀ ph, set_phase "COMPLETED" <$> gameReducer (set_phase ph s) a
          = Some (set_phase "COMPLETED" s').
Proof.
  intros Hph Hred. split; [|split].
  - intros Ha. destruct a; try discriminate Ha; cbn in Hred;
      repeat case_match; simplify_eq; cbn; done.
  - intros Ha. destruct a; try discriminate Ha; cbn in Hred; by simplify_eq.
  - intros ph. by rewrite reducer_phase_blind, Hred.
Qed.

(** ** Strikes under every action *)

Lemma reducer_strikes (s : GameState) (a : GameAction) (s' : GameState) :
  gameReducer s a = Some s' →
  match a with
  | NEXT_QUESTION | NEXT_SEGMENT | RESET_STRIKES =>
      strikesMap s' = (λ _, Some 0) <$> strikesMap s
  | RESET_GAME => s' = initialGameState
  | ADD_STRIKE k =>
      ∃ p, players s !! k = Some p
        ∧ strikesMap s' = <[k := Some (strikesOrZero p + 1)]> (strikesMap s)
  | INIT payload => s' = payload
  | ADD_PLAYER player =>
      strikesMap s' = <[id player := strikes player]> (strikesMap s)
  | UPDATE_PLAYER k partial =>
      ∃ p, players s !! k = Some p
        ∧ strikesMap s'
          = <[k := default (strikes p) (p_strikes partial)]> (strikesMap s)
  | _ => strikesMap s' = strikesMap s
  end.
Proof.
  intros Hred. unfold strikesMap.
  reducer_cases a Hred; try reflexivity; try apply strikesMap_zeroed.
  - by rewrite fmap_insert.
  - eexists. split; [done|]. by rewrite fmap_insert.
  - by eapply strikesMap_insert_same.
  - eexists. split; [done|]. by rewrite fmap_insert.
  - by eapply strikesMap_insert_same.
Qed.

Lemma strikesOrZero_nonneg (s : GameState) (k : PlayerId) (p : Player) :
  strikesNonneg s → players s !! k = Some p → 0 ≤ strikesOrZero p.
Proof.
  intros Hs Hk. unfold strikesOrZero.
  destruct (strikes p) as [n|] eqn:Hn; [|done].
  case_decide; [done|]. apply (Hs k). unfold strikesMap.
  by rewrite lookup_fmap, Hk; cbn; rewrite Hn.
Qed.

(** C3 (strikes), as the code has it: the reducer enforces no ceiling of 3.
    ADD_STRIKE adds exactly one to the addressed player's strikes, whatever
    they are, and leaves the other players' strikes alone; NEXT_QUESTION,
    NEXT_SEGMENT and RESET_STRIKES set every player's strikes to 0 and
    RESET_GAME returns the initial state; INIT, ADD_PLAYER and UPDATE_PLAYER
    write the strikes their payload carries; every other action leaves every
    player's strikes as they were.  Under the actions that carry no player
    data, strikes that were at least 0 stay at least 0, and after ADD_STRIKE
    the addressed player's are at least 1. *)
Theorem C3_strikes_no_ceiling (s : GameState) (a : GameAction) (s' : GameState) :
  gameReducer s a = Some s' →
  match a with
  | NEXT_QUESTION | NEXT_SEGMENT | RESET_STRIKES =>
      strikesMap s' = (λ _, Some 0) <$> strikesMap s
  | RESET_GAME => s' = initialGameState
  | ADD_STRIKE k =>
      ∃ p, players s !! k = Some p
        ∧ strikesMap s' = <[k := Some (strikesOrZero p + 1)]> (strikesMap s)
        ∧ (strikesNonneg s → 1 ≤ strikesOrZero p + 1)
  | INIT payload => s' = payload
  | ADD_PLAYER player =>
      strikesMap s' = <[id player := strikes player]> (strikesMap s)
  | UPDATE_PLAYER k partial =>
      ∃ p, players s !! k = Some p
        ∧ strikesMap s'
          = <[k := default (strikes p) (p_strikes partial)]> (strikesMap s)
  | _ => strikesMap s' = strikesMap s
  end
  ∧ (carriesPlayers a = false → strikesNonneg s →
     strikesNonneg initialGameState → strikesNonneg s').
Proof.
  intros Hred. pose proof (reducer_strikes s a s' Hred) as Heff. split.
  - destruct a; try exact Heff.
    destruct Heff as (p & Hk & Hmap). exists p. repeat split; try done.
    intros Hs. pose proof (strikesOrZero_nonneg s _ p Hs Hk). lia.
  - intros Hc Hs Hinit.
    destruct a; try discriminate Hc; try (subst s'; exact Hinit);
      try (intros k n; rewrite Heff; apply Hs).
    + intros k n. rewrite Heff, lookup_fmap.
      destruct (strikesMap s !! k); cbn; [|done]. intros [= <-]. done.
    + intros k n. rewrite Heff, lookup_fmap.
      destruct (strikesMap s !! k); cbn; [|done]. intros [= <-]. done.
    + intros k n. rewrite Heff, lookup_fmap.
      destruct (strikesMap s !! k); cbn; [|done]. intros [= <-]. done.
    + destruct Heff as (p & Hk & Hmap). intros k n. rewrite Hmap.
      destruct (decide (playerId = k)) as [->|Hne].
      * rewrite lookup_insert_eq. intros [= <-].
        pose proof (strikesOrZero_nonneg s _ p Hs Hk). lia.
      * rewrite lookup_insert_ne by done. apply Hs.
Qed.

(** ** The timer under every action *)

(** C4 (timer bound), as the code has it: the reducer stores the timer value
    an action carries without checking it.  From a state with timer at least
    0, every action whose own timer value (START_TIMER's duration,
    UPDATE_TIMER's timer, the INIT payload's timer) is at least 0 returns a
    state with timer at least 0, the initial state's timer being at least 0;
    TICK_TIMER in particular never takes the timer below 0. *)
Theorem C4_timer_nonneg_checked_inputs (s : GameState) (a : GameAction) (s' : GameState) :
  0 ≤ timer s → 0 ≤ timer initialGameState → timerInputNonneg a →
  gameReducer s a = Some s' → 0 ≤ timer s'.
Proof.
  intros Hs Hinit Ha Hred.
  reducer_cases a Hred; cbn in Ha; lia.
Qed.

(** ** The three player slots *)

Lemma reducer_keeps_slots (s : GameState) (a : GameAction) (s' : GameState) :
  dom (players initialGameState) = fixedKeys →
  dom (players s) = fixedKeys → keepsSlots a →
  gameReducer s a = Some s' → dom (players s') = fixedKeys.
Proof.
  intros Hinit Hs Ha Hred.
  reducer_cases a Hred; cbn in Ha;
    try done;
    try (unfold resetAllStrikes; by rewrite dom_fmap_L);
    try (rewrite dom_insert_lookup_L; [done | by eexists]).
  rewrite dom_insert_L, Hs.
  apply subseteq_union_1_L. by apply singleton_subseteq_l.
Qed.

Lemma reducer_returns_on_slots (s : GameState) (a : GameAction) :
  dom (players s) = fixedKeys → addressesSlot a → is_Some (gameReducer s a).
Proof.
  intros Hs Ha.
  destruct a; cbn in Ha |- *; try (by eexists);
    rewrite <- Hs in Ha; apply elem_of_dom in Ha as [p ->]; by eexists.
Qed.

Lemma dispatchAll_keeps_slots (acts : list GameAction) (s s' : GameState) :
  dom (players initialGameState) = fixedKeys →
  dom (players s) = fixedKeys → Forall keepsSlots acts →
  dispatchAll s acts = Some s' → dom (players s') = fixedKeys.
Proof.
  intros Hinit. revert s.
  induction acts as [|a acts IH]; intros s Hs Hall Hrun; cbn in Hrun.
  - by simplify_eq.
  - apply Forall_cons in Hall as [Ha Hall].
    destruct (gameReducer s a) as [s1|] eqn:Hred; [|done].
    eapply IH; [|done..]. by eapply reducer_keeps_slots.
Qed.

Lemma dispatchAll_returns_on_slots (acts : list GameAction) (s : GameState) :
  dom (players initialGameState) = fixedKeys →
  dom (players s) = fixedKeys → Forall keepsSlots acts →
  Forall addressesSlot acts → is_Some (dispatchAll s acts).
Proof.
  intros Hinit. revert s.
  induction acts as [|a acts IH]; intros s Hs Hkeep Haddr; cbn.
  - by eexists.
  - apply Forall_cons in Hkeep as [Hk Hkeep].
    apply Forall_cons in Haddr as [Ha Haddr].
    destruct (reducer_returns_on_slots s a Hs Ha) as [s1 Hred].
    rewrite Hred. apply IH; [|done..]. by eapply reducer_keeps_slots.
Qed.

(** C5 (player slots), as the code has it: the reducer stores the players an
    action carries without checking their keys.  Starting from the initial
    state, whose players are the three fixed slots, every run of actions in
    which each INIT payload has exactly the three fixed keys and each
    ADD_PLAYER carries a player of one of them ends, when it returns, with
    exactly the keys host, playerA and playerB; and it does return when the
    actions address players of the three slots only. *)
Theorem C5_slots_with_checked_inputs (acts : list GameAction) :
  dom (players initialGameState) = fixedKeys → Forall keepsSlots acts →
  (∀ s', dispatchAll initialGameState acts = Some s' →
     dom (players s') = fixedKeys ∧ size (players s') = 3%nat)
  ∧ (Forall addressesSlot acts → is_Some (dispatchAll initialGameState acts)).
Proof.
  intros Hinit Hkeep. split.
  - intros s' Hrun.
    assert (dom (players s') = fixedKeys) as Hdom
      by (by eapply dispatchAll_keeps_slots).
    split; [done|]. by rewrite <- size_dom, Hdom.
  - intros Haddr. by apply dispatchAll_returns_on_slots.
Qed.

(** ** When the reducer throws *)


(** ** One player at a time *)

(** An action that addresses player [k] touches that slot only: every other
    slot, the set of keys and every field of the state but [players] are as
    before. *)
Theorem addressed_action_is_local (s : GameState) (a : GameAction) (s' : GameState)
    (k : PlayerId) :
  addressedPlayer a = Some k → gameReducer s a = Some s' →
  (∀ j, j ≠ k → players s' !! j = players s !! j)
  ∧ dom (players s') = dom (players s)
  ∧ set_players (players s) s' = s.
Proof.
  intros Ha Hred.
  destruct a; cbn in Ha; try discriminate Ha; simplify_eq;
    cbn in Hred; destruct (players s !! k) as [p|] eqn:Hk; simplify_eq; cbn;
    (split; [intros j Hj; by rewrite lookup_insert_ne|]);
    (split; [apply dom_insert_lookup_L; by eexists | by destruct s]).
Qed.

(** ** Scores *)

(** Two UPDATE_SCORE on the same player add up: they leave the very state
    that one UPDATE_SCORE of the sum leaves.  Points may be negative and the
    score has no floor; the score history is not written. *)
Theorem update_score_accumulates (s : GameState) (k : PlayerId) (p : Player) (a b : Z) :
  players s !! k = Some p →
  ∃ s2, dispatchAll s [UPDATE_SCORE k a; UPDATE_SCORE k b] = Some s2
    ∧ gameReducer s (UPDATE_SCORE k (a + b)) = Some s2
    ∧ score <$> players s2 !! k = Some (score p + a + b)
    ∧ scoreHistory s2 = scoreHistory s.
Proof.
  intros Hk. cbn. rewrite Hk. cbn. rewrite lookup_insert_eq. cbn.
  rewrite insert_insert_eq. eexists. split; [reflexivity|].
  replace (score p + (a + b)) with (score p + a + b) by lia.
  split; [reflexivity|]. split; [|reflexivity].
  cbn. by rewrite lookup_insert_eq.
Qed.

(** ** The score history *)

Lemma reducer_history_step (s : GameState) (a : GameAction) (s' : GameState) :
  replacesState a = false → gameReducer s a = Some s' →
  scoreHistory s' = (scoreHistory s ++ pushedEvents [a])%list.
Proof.
  intros Ha Hred.
  destruct a; try discriminate Ha; cbn in Hred; repeat case_match;
    simplify_eq; cbn; by rewrite ?app_nil_r.
Qed.

Lemma pushedEvents_cons (a : GameAction) (acts : list GameAction) :
  pushedEvents (a :: acts) = (pushedEvents [a] ++ pushedEvents acts)%list.
Proof. by destruct a. Qed.

(** The score history is append-only under every action but INIT and
    RESET_GAME: after a run without them it is the history before the run
    followed by the events of the run's PUSH_SCORE_EVENT actions, in the
    order of dispatch. *)
Theorem score_history_append_only (acts : list GameAction) (s s' : GameState) :
  Forall (λ a, replacesState a = false) acts →
  dispatchAll s acts = Some s' →
  scoreHistory s' = (scoreHistory s ++ pushedEvents acts)%list.
Proof.
  revert s. induction acts as [|a acts IH]; intros s Hall Hrun.
  - cbn in Hrun. simplify_eq. by rewrite app_nil_r.
  - apply Forall_cons in Hall as [Ha Hall]. cbn [dispatchAll] in Hrun.
    destruct (gameReducer s a) as [s1|] eqn:Hred; [|done].
    rewrite (IH s1 Hall Hrun), (reducer_history_step s a s1 Ha Hred).
    by rewrite (pushedEvents_cons a acts), app_assoc.
Qed.

(** ** Special buttons *)

Lemma button_stays_used (s : GameState) (a : GameAction) (s' : GameState)
    (k : PlayerId) (bt : string) :
  writesPlayers a = false → gameReducer s a = Some s' →
  buttonState s k bt = Some false → buttonState s' k bt = Some false.
Proof.
  intros Ha Hred. unfold buttonState.
  destruct a; try discriminate Ha; cbn in Hred; repeat case_match;
    simplify_eq; cbn; try done;
    try (unfold resetAllStrikes; rewrite lookup_fmap;
         by destruct (players s !! k));
    match goal with
    | |- context [<[?j := _]> _ !! k] =>
        destruct (decide (j = k)) as [->|Hne];
        [rewrite lookup_insert_eq | by rewrite lookup_insert_ne]
    end; cbn.
  - intros Hb. by simplify_option_eq.
  - intros Hb. by simplify_option_eq.
  - intros Hb. simplify_option_eq.
    destruct (decide (buttonType = bt)) as [->|Hbt].
    + by rewrite lookup_insert_eq.
    + by rewrite lookup_insert_ne.
Qed.

(** A special button is spent for good: once USE_SPECIAL_BUTTON has marked it
    unavailable, no run of actions that carry no player data (no INIT,
    ADD_PLAYER, UPDATE_PLAYER or RESET_GAME) makes it available again. *)
Theorem special_button_spent_for_good (acts : list GameAction) (s s' : GameState)
    (k : PlayerId) (bt : string) :
  Forall (λ a, writesPlayers a = false) acts →
  dispatchAll s (USE_SPECIAL_BUTTON k bt :: acts) = Some s' →
  buttonState s' k bt = Some false.
Proof.
  intros Hall Hrun. cbn [dispatchAll] in Hrun.
  destruct (gameReducer s (USE_SPECIAL_BUTTON k bt)) as [s1|] eqn:Hred; [|done].
  assert (buttonState s1 k bt = Some false) as Hused.
  { cbn in Hred. destruct (players s !! k) as [p|]; simplify_eq.
    unfold buttonState. cbn. rewrite lookup_insert_eq. cbn.
    by rewrite lookup_insert_eq. }
  clear Hred. revert s1 Hused Hrun.
  induction acts as [|a acts IH]; intros s1 Hused Hrun.
  - cbn in Hrun. by simplify_eq.
  - apply Forall_cons in Hall as [Ha Hall]. cbn [dispatchAll] in Hrun.
    destruct (gameReducer s1 a) as [s2|] eqn:Hred; [|done].
    eapply IH; [done| |done]. by eapply button_stays_used.
Qed.

(** ** Counting down *)

Lemma tick_at_floor (n : nat) (s : GameState) :
  timer s ≤ 0 → dispatchAll s (replicate n TICK_TIMER) = Some s.
Proof.
  intros Hs. induction n as [|n IH]; [done|].
  cbn [replicate dispatchAll gameReducer]. case_decide; [lia|done].
Qed.

(** [n] TICK_TIMER in a row always return.  From a timer of at least 0 they
    leave the timer at [max 0 (timer - n)]; from a timer of at most 0,
    negative ones included, they leave the state as it is.  Nothing but the
    timer ever moves. *)
Theorem tick_countdown_and_floor (n : nat) (s : GameState) :
  ∃ s', dispatchAll s (replicate n TICK_TIMER) = Some s'
    ∧ (0 ≤ timer s → timer s' = Z.max 0 (timer s - Z.of_nat n))
    ∧ (timer s ≤ 0 → s' = s)
    ∧ set_timer (timer s) s' = s.
Proof.
  destruct (decide (0 ≤ timer s)) as [Hpos|Hneg].
  - eexists. split; [by apply tick_many|]. split; [done|]. split.
    + intros Hle. assert (timer s = 0) as Hz by lia.
      replace (Z.max 0 (timer s - Z.of_nat n)) with (timer s) by lia.
      apply set_timer_id.
    + rewrite set_timer_twice. apply set_timer_id.
  - exists s. split; [apply tick_at_floor; lia|]. split; [lia|].
    split; [done|]. apply set_timer_id.
Qed.

(** ** Dispatching an action twice *)

Lemma zeroStrikes_twice (ps : gmap PlayerId Player) :
  resetAllStrikes (resetAllStrikes ps) = resetAllStrikes ps.
Proof.
  unfold resetAllStrikes. rewrite <- map_fmap_compose.
  apply map_fmap_ext. intros k p _. by destruct p.
Qed.

Lemma assignPlayer_twice (p : Player) (q : PartialPlayer) :
  assignPlayer (assignPlayer p q) q = assignPlayer p q.
Proof.
  destruct q as [q1 q2 q3 q4 q5 q6 q7 q8]. unfold assignPlayer. cbn.
  by destruct q1, q2, q3, q4, q5, q6, q7, q8.
Qed.

(** Every action but NEXT_QUESTION, UPDATE_SCORE, ADD_STRIKE, TICK_TIMER and
    PUSH_SCORE_EVENT can be delivered twice: dispatched again on the state it
    returned, it returns that state unchanged. *)
Theorem repeatable_action_delivered_twice (s : GameState) (a : GameAction)
    (s' : GameState) :
  repeatable a = true → gameReducer s a = Some s' → gameReducer s' a = Some s'.
Proof.
  intros Ha Hred.
  destruct a; try discriminate Ha; cbn in Hred; repeat case_match;
    simplify_eq; cbn; try done.
  - by case_decide.
  - by rewrite insert_insert_eq.
  - rewrite lookup_insert_eq, insert_insert_eq. by rewrite assignPlayer_twice.
  - fold (resetAllStrikes (resetAllStrikes (players s))).
    by rewrite zeroStrikes_twice.
  - fold (resetAllStrikes (players s)).
    fold (resetAllStrikes (resetAllStrikes (players s))).
    by rewrite zeroStrikes_twice.
  - rewrite lookup_insert_eq, insert_insert_eq. cbn. by rewrite insert_insert_eq.
Qed.

(** ** The keys of the players object *)

(** No case of the switch deletes a player.  ADD_PLAYER adds the key of the
    player it carries, INIT and RESET_GAME bring their own players object,
    and every other action leaves the set of keys exactly as it was, whatever
    that set is. *)
Theorem player_keys_under_actions (s : GameState) (a : GameAction) (s' : GameState) :
  gameReducer s a = Some s' →
  match a with
  | INIT payload => players s' = players payload
  | RESET_GAME => players s' = players initialGameState
  | ADD_PLAYER player => dom (players s') = {[ id player ]} ∪ dom (players s)
  | _ => dom (players s') = dom (players s)
  end.
Proof.
  intros Hred.
  reducer_cases a Hred; try done;
    try (unfold resetAllStrikes; by rewrite dom_fmap_L);
    try (apply dom_insert_lookup_L; by eexists).
  apply dom_insert_L.
Qed.

(** ** Adding and patching a player *)

(** ADD_PLAYER of a player whose id is not a name inherited from
    [Object.prototype] returns and files the player under the player's own
    id: looking that id up afterwards gives back the very player that was
    added, whatever the slot held before; the other slots are untouched, and
    the number of slots grows by one exactly when the id was not a key
    yet. *)
Theorem add_player_then_lookup (s : GameState) (player : Player) :
  id player ∉ objectPrototypeNames →
  ∃ s', gameReducer s (ADD_PLAYER player) = Some s'
    ∧ players s' !! id player = Some player
    ∧ (∀ j, j ≠ id player → players s' !! j = players s !! j)
    ∧ (is_Some (players s !! id player) → size (players s') = size (players s))
    ∧ (players s !! id player = None → size (players s') = S (size (players s))).
Proof.
  intros _.
  eexists. split; [reflexivity|]. cbn. split; [apply lookup_insert_eq|].
  split; [intros j Hj; by apply lookup_insert_ne|]. split.
  - intros Hsome. rewrite <- !size_dom.
    by rewrite dom_insert_lookup_L.
  - intros Hnone. by apply map_size_insert_None.
Qed.

(** UPDATE_PLAYER with an empty patch returns the state unchanged when the
    player exists, and a patch never moves a player to another key: the slot
    it writes is the addressed one even when the patch changes the player's
    id field. *)
Theorem update_player_patch (s : GameState) (k : PlayerId) (p : Player)
    (q : PartialPlayer) :
  players s !! k = Some p →
  gameReducer s (UPDATE_PLAYER k emptyPatch) = Some s
  ∧ ∃ s', gameReducer s (UPDATE_PLAYER k q) = Some s'
      ∧ players s' !! k = Some (assignPlayer p q)
      ∧ id <$> players s' !! k = Some (default (id p) (p_id q))
      ∧ dom (players s') = dom (players s).
Proof.
  intros Hk. cbn. rewrite Hk. split.
  - f_equal. replace (assignPlayer p emptyPatch) with p by (by destruct p).
    rewrite insert_id by done. by destruct s.
  - eexists. split; [reflexivity|]. cbn. rewrite lookup_insert_eq.
    split; [done|]. split; [done|]. apply dom_insert_lookup_L. by eexists.
Qed.

(** ** Entering a phase *)

(** SET_PHASE writes the phase and, when the new phase is CONFIG, clears the
    current segment; entering any other phase leaves the current segment as
    it is, so entering PLAYING without a segment leaves none.  No other field
    is written. *)
Theorem set_phase_and_segment (s : GameState) (ph : GamePhase) :
  ∃ s', gameReducer s (SET_PHASE ph) = Some s'
    ∧ phase s' = ph
    ∧ (ph = "CONFIG" → currentSegment s' = None)
    ∧ (ph ≠ "CONFIG" → currentSegment s' = currentSegment s)
    ∧ set_currentSegment (currentSegment s) (set_phase (phase s) s') = s.
Proof.
  eexists. split; [reflexivity|].
  case_decide; repeat split; try done; by destruct s.
Qed.

(** ** A delta arrives *)

Lemma reducer_keeps_gameId (captured s : GameState) (a : GameAction) (s' : GameState) :
  keepsGameId captured a → gameReducer s a = Some s' →
  gameId s = gameId captured → gameId s' = gameId captured.
Proof.
  intros Ha Hred Hs.
  destruct a; cbn in Ha; try done; cbn in Hred; repeat case_match;
    by simplify_eq.
Qed.

Lemma dispatchAll_app (acts1 acts2 : list GameAction) (s s1 : GameState) :
  dispatchAll s acts1 = Some s1 →
  dispatchAll s (acts1 ++ acts2) = dispatchAll s1 acts2.
Proof.
  revert s. induction acts1 as [|a acts1 IH]; intros s Hrun; cbn in Hrun |- *.
  - by simplify_eq.
  - destruct (gameReducer s a) as [s2|]; [by apply IH|done].
Qed.

(** The callback that the provider installs once the state has a game id
    spreads every delta over the state of that moment.  After any run of
    later actions that keep the game id (so that the same callback is still
    in use), the arrival of a delta leaves the captured state with the
    delta's fields on top: whatever the run had changed in a field the delta
    lacks is gone, score history, players and timer included. *)
Theorem delta_arrival_wipes_later_changes (captured cur : GameState)
    (acts : list GameAction) (gs : PartialGameState) :
  gameId captured ≠ "" → Forall (keepsGameId captured) acts →
  dispatchAll captured acts = Some cur →
  gameId cur = gameId captured
  ∧ dispatchAll captured (acts ++ [onGameStateUpdate captured gs])
    = Some (spread captured gs)
  ∧ (d_scoreHistory gs = None →
     scoreHistory (spread captured gs) = scoreHistory captured)
  ∧ (d_players gs = None → players (spread captured gs) = players captured)
  ∧ (d_timer gs = None → timer (spread captured gs) = timer captured)
  ∧ (d_phase gs = None → phase (spread captured gs) = phase captured).
Proof.
  intros _ Hall Hrun. split; [|split].
  - assert (∀ s, gameId s = gameId captured → dispatchAll s acts = Some cur →
              gameId cur = gameId captured) as Hgen; [|by apply (Hgen captured)].
    clear Hrun. induction acts as [|a acts IH]; intros s Hs Hrun; cbn in Hrun.
    + by simplify_eq.
    + apply Forall_cons in Hall as [Ha Hall].
      destruct (gameReducer s a) as [s1|] eqn:Hred; [|done].
      apply (IH Hall s1); [|done]. by eapply reducer_keeps_gameId.
  - by rewrite (dispatchAll_app _ _ _ _ Hrun).
  - repeat split; intros Hnone; cbn; by rewrite Hnone.
Qed.

(** ** Moving to the next segment *)

Lemma nextSegmentCode_chain (c : SegmentCode) :
  nextSegmentCode (Some c)
  = if decide (c = "") then Some "WSHA"
    else if decide ("WSHA" = c) then Some "AUCT"
    else if decide ("AUCT" = c) then Some "BELL"
    else if decide ("BELL" = c) then Some "SING"
    else if decide ("SING" = c) then Some "REMO"
    else if decide ("REMO" = c) then None
    else Some "WSHA".
Proof.
  unfold nextSegmentCode, nextSegmentIndex, indexOf. cbn.
  repeat case_decide; try reflexivity; exfalso; lia.
Qed.

(** The segment that [actions.nextSegment] moves to: WSHA when there is no
    current segment, when it is the empty string or when it is not one of the
    five codes; the code that follows in the order WSHA, AUCT, BELL, SING,
    REMO otherwise; and none exactly after REMO.  The result is never a code
    outside the five. *)
Theorem next_segment_code_walks_the_order (cur : option SegmentCode) :
  (cur = None → nextSegmentCode cur = Some "WSHA")
  ∧ (∀ c, cur = Some c → c ∉ segmentOrder → nextSegmentCode cur = Some "WSHA")
  ∧ (∀ i c c', cur = Some c → segmentOrder !! i = Some c →
       segmentOrder !! S i = Some c' → nextSegmentCode cur = Some c')
  ∧ (nextSegmentCode cur = None ↔ cur = Some "REMO")
  ∧ (∀ c', nextSegmentCode cur = Some c' → c' ∈ segmentOrder).
Proof.
  split; [by intros ->|]. split; [|split; [|split]].
  - intros c -> Hnot. rewrite nextSegmentCode_chain. unfold segmentOrder in Hnot.
    repeat case_decide; try done; subst; exfalso; apply Hnot;
      repeat constructor.
  - intros i c c' -> Hi HSi. rewrite nextSegmentCode_chain.
    do 5 (destruct i as [|i]; [cbn in Hi, HSi; by simplify_eq|]).
    by destruct i.
  - destruct cur as [c|]; [|by split]. rewrite nextSegmentCode_chain. split.
    + repeat case_decide; try done. by subst.
    + intros [= ->]. by repeat case_decide.
  - intros c'. destruct cur as [c|].
    + rewrite nextSegmentCode_chain. unfold segmentOrder.
      repeat case_decide; intros [= <-]; repeat constructor.
    + intros [= <-]. unfold segmentOrder. repeat constructor.
Qed.

(** [actions.nextSegment] dispatches NEXT_SEGMENT and then
    SET_CURRENT_SEGMENT; the pair always returns, and leaves the segment that
    follows the current one, question index 0, timer 0 and stopped, every
    player without strikes, and the phase as it was: past the last segment
    the state has no segment and is not COMPLETED by this helper. *)
Theorem next_segment_helper_effect (s : GameState) :
  ∃ s', dispatchAll s (nextSegment_dispatched s) = Some s'
    ∧ currentSegment s' = nextSegmentCode (currentSegment s)
    ∧ currentQuestionIndex s' = 0 ∧ timer s' = 0 ∧ isTimerRunning s' = false
    ∧ (∀ k p, players s' !! k = Some p → strikes p = Some 0)
    ∧ dom (players s') = dom (players s)
    ∧ phase s' = phase s ∧ scoreHistory s' = scoreHistory s
    ∧ (currentSegment s = Some "REMO" → currentSegment s' = None).
Proof.
  eexists. split; [reflexivity|]. cbn.
  split; [done|]. split; [done|]. split; [done|]. split; [done|].
  split; [intros k p; apply resetAllStrikes_lookup|].
  split; [unfold resetAllStrikes; apply dom_fmap_L|].
  split; [done|]. split; [done|]. by intros ->.
Qed.

(** ** What the helpers hand to the database *)


(** ** What the pages show *)

Lemma reducer_keeps_phase (s : GameState) (a : GameAction) (s' : GameState) :
  assignsPhase a = false → gameReducer s a = Some s' →
  phase s = "COMPLETED" → phase s' = "COMPLETED".
Proof.
  intros Ha Hred Hph.
  destruct a; try discriminate Ha; cbn in Hred; repeat case_match;
    by simplify_eq.
Qed.

(** Once COMPLETE_GAME has been dispatched the final-scores page renders, and
    it keeps rendering through every run of actions other than INIT,
    SET_PHASE and RESET_GAME. *)
Theorem final_scores_stay_on_screen (acts : list GameAction) (s s' : GameState) :
  Forall (λ a, assignsPhase a = false) acts →
  dispatchAll s (COMPLETE_GAME :: acts) = Some s' →
  finalScoresRenders s' = true.
Proof.
  intros Hall Hrun. cbn [dispatchAll gameReducer] in Hrun.
  unfold finalScoresRenders. apply bool_decide_eq_true.
  remember (set_isTimerRunning false (set_phase "COMPLETED" s)) as s1 eqn:Hs1.
  assert (phase s1 = "COMPLETED") as Hph by (by subst s1).
  clear Hs1. revert s1 Hph Hrun.
  induction acts as [|a acts IH]; intros s1 Hph Hrun.
  - cbn in Hrun. by simplify_eq.
  - apply Forall_cons in Hall as [Ha Hall]. cbn [dispatchAll] in Hrun.
    destruct (gameReducer s1 a) as [s2|] eqn:Hred; [|done].
    eapply IH; [done| |done]. by eapply reducer_keeps_phase.
Qed.

(** After [actions.nextSegment] the segment-intro page renders unless the
    segment left behind was REMO, the last one: then the state has no segment
    and the page renders nothing. *)
Theorem segment_intro_after_next_segment (s : GameState) :
  ∃ s', dispatchAll s (nextSegment_dispatched s) = Some s'
    ∧ (segmentIntroRenders s' = true ↔ currentSegment s ≠ Some "REMO").
Proof.
  eexists. split; [reflexivity|]. unfold segmentIntroRenders. cbn.
  destruct (currentSegment s) as [c|]; [|by cbn].
  rewrite nextSegmentCode_chain.
  repeat case_decide; subst; cbn; split; try done; congruence.
Qed.

(** ** Question after question *)

(** [n] NEXT_QUESTION in a row always return and add [n] to the question
    index; the question index is the only counter they move up, and the set
    of player keys is kept. *)
Theorem next_question_counts (n : nat) (s : GameState) :
  ∃ s', dispatchAll s (replicate n NEXT_QUESTION) = Some s'
    ∧ currentQuestionIndex s' = currentQuestionIndex s + Z.of_nat n
    ∧ ((0 < n)%nat → timer s' = 0 ∧ isTimerRunning s' = false)
    ∧ dom (players s') = dom (players s)
    ∧ phase s' = phase s ∧ currentSegment s' = currentSegment s.
Proof.
  revert s. induction n as [|n IH]; intros s.
  - exists s. cbn. repeat split; try lia.
  - cbn [replicate dispatchAll gameReducer].
    destruct (IH (set_players
                    (resetAllStrikes
                       (players (set_isTimerRunning false (set_timer 0
                          (set_currentQuestionIndex (currentQuestionIndex s + 1) s)))))
                    (set_isTimerRunning false (set_timer 0
                       (set_currentQuestionIndex (currentQuestionIndex s + 1) s)))))
      as (s' & Hrun & Hidx & Htimer & Hdom & Hph & Hseg).
    exists s'. split; [exact Hrun|]. cbn in Hidx, Hdom, Hph, Hseg.
    split; [lia|]. split.
    + intros _. destruct n as [|n]; [|apply Htimer; lia].
      cbn in Hrun. by simplify_eq.
    + split; [|done]. rewrite Hdom. unfold resetAllStrikes. apply dom_fmap_L.
Qed.

(** ** The helpers whose action has no case *)

(** START_GAME, JOIN_GAME, UPDATE_HOST_NAME, UPDATE_SEGMENT_SETTINGS and
    ADVANCE_QUESTION, the actions that [actions.startGame],
    [actions.joinGame], [actions.updateHostName],
    [actions.updateSegmentSettings] and [advanceQuestion] dispatch, have no
    case in the switch and leave no trace: a run of actions returns what the
    same run without them returns, and throws when that one throws. *)
Theorem caseless_actions_leave_no_trace (s : GameState) (acts : list GameAction) :
  dispatchAll s acts = dispatchAll s (filter (λ a, unhandled a = false) acts).
Proof.
  revert s. induction acts as [|a acts IH]; intros s; [done|].
  destruct (unhandled a) eqn:Ha.
  - rewrite filter_cons_False by congruence.
    cbn [dispatchAll]. replace (gameReducer s a) with (Some s) by (by destruct a).
    apply IH.
  - rewrite filter_cons_True by done. cbn [dispatchAll].
    destruct (gameReducer s a); [apply IH|done].
Qed.

End Reducer.

(** ** The lobby page *)

Lemma take_app_take {A} (n m : nat) (a l : list A) :
  (n ≤ length a + m)%nat → take n (a ++ take m l) = take n (a ++ l).
Proof.
  intros Hn. rewrite !take_app, take_take. do 2 f_equal. lia.
Qed.

(** The room-status log keeps the ten most recent messages, newest first:
    after any number of alerts, starting from a log of at most ten entries,
    it is the first ten of the messages in reverse order of arrival followed
    by the old log, and it never holds more than ten. *)
Theorem status_log_keeps_last_ten (entries log : list string) :
  (length log ≤ 10)%nat →
  foldl (λ l e, pushStatusLog e l) log entries
  = take 10 (reverse entries ++ log)
  ∧ (length (foldl (λ l e, pushStatusLog e l) log entries) ≤ 10)%nat.
Proof.
  intros Hlen.
  assert (foldl (λ l e, pushStatusLog e l) log entries
          = take 10 (reverse entries ++ log)) as Heq.
  { revert log Hlen. induction entries as [|e es IH]; intros log Hlen.
    - cbn. by rewrite take_ge.
    - cbn [foldl]. rewrite IH.
      + unfold pushStatusLog. rewrite reverse_cons, <- app_assoc. cbn.
        rewrite (app_assoc _ [e] (take 9 log)), (app_assoc _ [e] log).
        apply take_app_take. rewrite length_app. cbn. lia.
      + unfold pushStatusLog. cbn. rewrite length_take. lia. }
  split; [exact Heq|]. rewrite Heq, length_take. lia.
Qed.

(** The effect opens the session-start modal only while the ref says it has
    not been shown, and only closing the modal clears the ref: over any list
    of events the modal is opened at most once more than it is closed, at
    most as often as it is closed when the ref is set at the start, and
    never when no run of the effect is on the host PC's page. *)
Theorem session_modal_opens_bounded_by_closes (refs : LobbyRefs)
    (events : list LobbyEvent) :
  (lobbyOpens refs events
   ≤ modalCloses events + (if hasShownSessionStartModal refs then 0 else 1))%nat
  ∧ (noHostPcRun events → lobbyOpens refs events = 0%nat).
Proof.
  split.
  - revert refs. induction events as [|ev events IH]; intros refs; [cbn; lia|].
    destruct ev as [isHostPc st| |]; cbn [lobbyOpens modalCloses].
    + destruct (playersEffect isHostPc st refs) as [[joined opens] refs'] eqn:Heff.
      specialize (IH refs'). unfold playersEffect in Heff.
      destruct isHostPc; simplify_eq; cbn in IH |- *.
      * destruct (hasShownSessionStartModal refs); cbn in IH |- *.
        -- rewrite andb_false_r. lia.
        -- rewrite andb_true_r in IH |- *.
           destruct (bool_decide (1 ≤ length (currentConnectedPlayers st))%nat
                     && videoRoomCreated st && bool_decide (phase st = "LOBBY"));
             cbn in IH |- *; lia.
      * lia.
    + specialize (IH (mkLobbyRefs (previousConnectedPlayerIds refs) false)).
      cbn in IH. destruct (hasShownSessionStartModal refs); lia.
    + apply IH.
  - unfold noHostPcRun. intros Hall. revert refs.
    induction events as [|ev events IH]; intros refs; [done|].
    apply Forall_cons in Hall as [Hev Hall].
    destruct ev as [isHostPc st| |]; cbn [lobbyOpens].
    + subst isHostPc. cbn. by apply IH.
    + by apply IH.
    + by apply IH.
Qed.

(** The host PC's lobby raises a joined alert for exactly the players that
    are connected, have a name and whose id was not among the connected ids
    of the previous run; run again on the same state it raises none; and on
    any other participant's page the effect does nothing. *)
Theorem joined_alerts_once_per_player (state : GameState) (refs : LobbyRefs) :
  (∀ p, p ∈ (playersEffect true state refs).1.1
        ↔ p ∈ objectValues (players state)
          ∧ isConnected p = true ∧ name p ≠ ""
          ∧ id p ∉ previousConnectedPlayerIds refs)
  ∧ (playersEffect true state (playersEffect true state refs).2).1.1 = []
  ∧ playersEffect false state refs = ([], false, refs).
Proof.
  split; [|split; [|done]].
  - intros p. cbn. unfold currentConnectedPlayers.
    rewrite !list_elem_of_filter. tauto.
  - cbn. apply elem_of_nil_inv. intros p Hp.
    apply list_elem_of_filter in Hp as [Hnot Hin]. apply Hnot.
    apply elem_of_list_to_set. by apply list_elem_of_fmap_2.
Qed.

(** ** The theorems at work on concrete sessions

    The imported constants are instantiated with [specInitialGameState] and
    [specDefaultPlayers]. *)

(** C1, as stated, fails: the provider's callback spreads the delta over the
    state its closure captured (the lobby state), not over the current one
    (in play, timer 30), and INIT returns that payload; the timer becomes 12
    but the phase falls back from PLAYING to LOBBY.  Nor can the reducer
    merge by itself: whatever full state stands for a partial payload, INIT
    returns it without looking at the current state. *)
Lemma C1_merge_over_current_fails :
  (timer playingState = 30 ∧ phase playingState = "PLAYING"
   ∧ ∃ s', gameReducer specInitialGameState playingState
             (onGameStateUpdate lobbyState (timerDelta 12)) = Some s'
       ∧ timer s' = 12
       ∧ phase s' = "LOBBY" ∧ phase s' ≠ phase playingState
       ∧ currentSegment s' ≠ currentSegment playingState)
  ∧ ∀ cast : PartialGameState → GameState,
      ¬ ∀ s gs, gameReducer specInitialGameState s (INIT (cast gs))
                = Some (spread s gs).
Proof.
  split.
  - split; [reflexivity|]. split; [reflexivity|].
    eexists. split; [reflexivity|]. repeat split; cbn; congruence.
  - intros cast Hmerge.
    pose proof (Hmerge playingState (timerDelta 12)) as H1.
    pose proof (Hmerge lobbyState (timerDelta 12)) as H2.
    cbn in H1, H2. rewrite H1 in H2. discriminate H2.
Qed.

(** C2, as stated, fails: from a COMPLETED state UPDATE_SCORE still adds to
    the score and TICK_TIMER still counts down. *)
Lemma C2_completed_state_still_changes :
  phase completedState = "COMPLETED"
  ∧ (∃ s', gameReducer specInitialGameState completedState
             (UPDATE_SCORE "playerA" 10) = Some s'
       ∧ score <$> players s' !! "playerA" = Some 10
       ∧ score <$> players completedState !! "playerA" = Some 0
       ∧ s' ≠ completedState)
  ∧ (∃ s', gameReducer specInitialGameState completedState TICK_TIMER = Some s'
       ∧ timer s' = 4 ∧ timer completedState = 5 ∧ s' ≠ completedState).
Proof.
  split; [reflexivity|]. split.
  - eexists. split; [reflexivity|].
    split; [by vm_compute|]. split; [by vm_compute|].
    intros Heq. apply (f_equal (λ s, score <$> players s !! "playerA")) in Heq.
    vm_compute in Heq. discriminate Heq.
  - eexists. split; [reflexivity|]. repeat split.
    intros Heq. apply (f_equal timer) in Heq. discriminate Heq.
Qed.

Lemma C2_completed_no_guard_witness :
  phase completedState = "COMPLETED"
  ∧ gameReducer specInitialGameState completedState TICK_TIMER
    = Some (set_timer 4 completedState)
  ∧ phase (set_timer 4 completedState) = "COMPLETED".
Proof.
  split; [reflexivity|]. split; [reflexivity|].
  exact (proj1 (C2_completed_no_guard specInitialGameState completedState
                  TICK_TIMER (set_timer 4 completedState) eq_refl eq_refl)
               eq_refl).
Defined.

(** C3, as stated, fails twice: a fourth ADD_STRIKE takes playerA to 4
    strikes, above 3; and UPDATE_PLAYER, which is none of the four resetting
    actions, sets playerA's strikes back to 0. *)
Lemma C3_fourth_strike_and_patch :
  (∃ s', dispatchAll specInitialGameState specInitialGameState
           [ADD_STRIKE "playerA"; ADD_STRIKE "playerA";
            ADD_STRIKE "playerA"; ADD_STRIKE "playerA"] = Some s'
     ∧ strikesMap s' !! "playerA" = Some (Some 4) ∧ ¬ 4 ≤ 3)
  ∧ (∃ s1 s2, gameReducer specInitialGameState specInitialGameState
                (ADD_STRIKE "playerA") = Some s1
       ∧ strikesMap s1 !! "playerA" = Some (Some 1)
       ∧ gameReducer specInitialGameState s1
           (UPDATE_PLAYER "playerA" (strikesPatch 0)) = Some s2
       ∧ strikesMap s2 !! "playerA" = Some (Some 0)).
Proof.
  split.
  - eexists. split; [by vm_compute|]. split; [by vm_compute|lia].
  - eexists _, _. split; [by vm_compute|]. split; [by vm_compute|].
    split; by vm_compute.
Qed.

Lemma C3_strikes_no_ceiling_witness :
  gameReducer specInitialGameState playingState RESET_STRIKES
  = Some (set_players (resetAllStrikes (players playingState)) playingState)
  ∧ strikesMap (set_players (resetAllStrikes (players playingState)) playingState)
    = (λ _, Some 0) <$> strikesMap playingState.
Proof.
  split; [reflexivity|].
  exact (proj1 (C3_strikes_no_ceiling specInitialGameState playingState
                  RESET_STRIKES _ eq_refl)).
Defined.

(** C4, as stated, fails: from timer 30, UPDATE_TIMER(-1, false) and
    START_TIMER(-5) return states whose timer is negative. *)
Lemma C4_negative_timer_stored :
  0 ≤ timer playingState
  ∧ (∃ s', gameReducer specInitialGameState playingState
             (UPDATE_TIMER (-1) false) = Some s'
       ∧ timer s' = -1 ∧ ¬ 0 ≤ timer s')
  ∧ (∃ s', gameReducer specInitialGameState playingState
             (START_TIMER (-5)) = Some s'
       ∧ timer s' = -5 ∧ ¬ 0 ≤ timer s').
Proof.
  split; [cbn; lia|].
  split; eexists; (split; [reflexivity|]); cbn; (split; [reflexivity|lia]).
Qed.

Lemma C4_timer_nonneg_checked_inputs_witness :
  0 ≤ timer playingState ∧ 0 ≤ timer specInitialGameState
  ∧ timerInputNonneg (START_TIMER 45)
  ∧ gameReducer specInitialGameState playingState (START_TIMER 45)
    = Some (set_isTimerRunning true (set_timer 45 playingState))
  ∧ 0 ≤ timer (set_isTimerRunning true (set_timer 45 playingState)).
Proof.
  assert (0 ≤ timer playingState) as H1 by (cbn; lia).
  assert (0 ≤ timer specInitialGameState) as H2 by (cbn; lia).
  assert (timerInputNonneg (START_TIMER 45)) as H3 by (cbn; lia).
  split; [exact H1|]. split; [exact H2|]. split; [exact H3|].
  split; [reflexivity|].
  exact (C4_timer_nonneg_checked_inputs specInitialGameState playingState
           (START_TIMER 45) _ H1 H2 H3 eq_refl).
Defined.

(** C5, as stated, fails both ways from the initial state: a delta of the
    shape that [updateScore] writes for the peers reaches the reducer as an
    INIT whose players object has the key playerA alone, and ADD_PLAYER of a player with another
    id adds a fourth key. *)
Lemma C5_slots_lost_and_added :
  (∃ s', dispatchAll specInitialGameState specInitialGameState
           [INIT lobbyState; onGameStateUpdate lobbyState (scoreDelta "playerA" 10)]
         = Some s'
     ∧ dom (players s') = {[ "playerA" ]}
     ∧ dom (players s') ≠ fixedKeys ∧ size (players s') = 1%nat)
  ∧ (∃ s', dispatchAll specInitialGameState specInitialGameState
             [ADD_PLAYER (freshPlayer "playerC")] = Some s'
       ∧ dom (players s') ≠ fixedKeys ∧ size (players s') = 4%nat).
Proof.
  split; eexists; (split; [reflexivity|]).
  - split; [by vm_compute|]. split; [by vm_compute|by vm_compute].
  - split; by vm_compute.
Qed.

Lemma C5_slots_with_checked_inputs_witness :
  dom (players specInitialGameState) = fixedKeys
  ∧ Forall keepsSlots sampleRun
  ∧ Forall addressesSlot sampleRun
  ∧ ∃ s', dispatchAll specInitialGameState specInitialGameState sampleRun = Some s'
      ∧ dom (players s') = fixedKeys.
Proof.
  assert (dom (players specInitialGameState) = fixedKeys) as H1 by (by vm_compute).
  assert (Forall keepsSlots sampleRun) as H2
    by (repeat constructor; by vm_compute).
  assert (Forall addressesSlot sampleRun) as H3
    by (repeat constructor; by vm_compute).
  split; [exact H1|]. split; [exact H2|]. split; [exact H3|].
  destruct (C5_slots_with_checked_inputs specInitialGameState sampleRun H1 H2)
    as [Hdom Hret].
  destruct (Hret H3) as [s' Hs']. exists s'. split; [exact Hs'|].
  exact (proj1 (Hdom s' Hs')).
Defined.

Lemma C6_timer_scenario_witness :
  timer specInitialGameState = 0 ∧ isTimerRunning specInitialGameState = false
  ∧ ∃ s1 s2 s3,
      gameReducer specInitialGameState specInitialGameState (START_TIMER 30) = Some s1
      ∧ timer s1 = 30 ∧ isTimerRunning s1 = true
      ∧ dispatchAll specInitialGameState s1 (replicate 30 TICK_TIMER) = Some s2
      ∧ timer s2 = 0
      ∧ gameReducer specInitialGameState s2 TICK_TIMER = Some s3
      ∧ timer s3 = 0.
Proof.
  split; [reflexivity|]. split; [reflexivity|].
  destruct (C6_timer_scenario specInitialGameState specInitialGameState
              eq_refl eq_refl)
    as (s1 & s2 & s3 & H1 & H2 & H3 & H4 & H5 & _ & H7 & H8 & _).
  exists s1, s2, s3. repeat split; assumption.
Defined.

Lemma C7_next_question_resets_witness :
  players specInitialGameState !! "playerA" = Some (freshPlayer "playerA")
  ∧ strikesOrZero (freshPlayer "playerA") = 0
  ∧ players specInitialGameState !! "playerB" = Some (freshPlayer "playerB")
  ∧ ∃ s3 s4,
      dispatchAll specInitialGameState specInitialGameState
        [ADD_STRIKE "playerA"; ADD_STRIKE "playerA"; ADD_STRIKE "playerA"] = Some s3
      ∧ strikesMap s3 !! "playerA" = Some (Some 3)
      ∧ gameReducer specInitialGameState s3 NEXT_QUESTION = Some s4
      ∧ strikesMap s4 !! "playerA" = Some (Some 0)
      ∧ strikesMap s4 !! "playerB" = Some (Some 0).
Proof.
  split; [reflexivity|]. split; [reflexivity|]. split; [reflexivity|].
  exact (proj2 (C7_next_question_resets specInitialGameState specInitialGameState
                  (freshPlayer "playerA") (freshPlayer "playerB")
                  eq_refl eq_refl eq_refl)).
Defined.

(** C9, as stated, fails: from a record without a timer column the loaded
    state's timer has no value; it is not the initial state's timer, whatever
    the initial state is, and the result is not a complete state. *)
Lemma C9_absent_column_not_defaulted :
  r_timer recordWithoutTimer = None
  ∧ timer specInitialGameState = 0
  ∧ l_timer (mapRecordToState specInitialGameState specDefaultPlayers
               recordWithoutTimer) = None
  ∧ l_timer (mapRecordToState specInitialGameState specDefaultPlayers
               recordWithoutTimer) ≠ Some (timer specInitialGameState)
  ∧ asGameState (mapRecordToState specInitialGameState specDefaultPlayers
                   recordWithoutTimer) = None
  ∧ ∀ initialGameState defaultPlayers,
      l_timer (mapRecordToState initialGameState defaultPlayers recordWithoutTimer)
      ≠ Some (timer initialGameState).
Proof. repeat split; try done. Qed.

Lemma C9_map_record_no_fallback_witness :
  dom specDefaultPlayers = fixedKeys
  ∧ l_scoreHistory (mapRecordToState specInitialGameState specDefaultPlayers sampleRecord)
    = scoreHistory specInitialGameState
  ∧ l_players (mapRecordToState specInitialGameState specDefaultPlayers sampleRecord)
    = specDefaultPlayers
  ∧ dom (l_players (mapRecordToState specInitialGameState specDefaultPlayers sampleRecord))
    = fixedKeys
  ∧ l_timer (mapRecordToState specInitialGameState specDefaultPlayers sampleRecord)
    = Some 0.
Proof.
  assert (dom specDefaultPlayers = fixedKeys) as H1 by (by vm_compute).
  split; [exact H1|].
  destruct (C9_map_record_no_fallback specInitialGameState specDefaultPlayers
              H1 sampleRecord)
    as (Hh & Hp & Hd & _ & _ & _ & _ & _ & _ & _ & _ & _ & Ht & _).
  split; [exact Hh|]. split; [exact Hp|]. split; [exact Hd|exact Ht].
Defined.

Lemma addressed_action_is_local_witness :
  addressedPlayer (UPDATE_SCORE "playerA" 5) = Some "playerA"
  ∧ ∃ s', gameReducer specInitialGameState playingState (UPDATE_SCORE "playerA" 5)
          = Some s'
      ∧ players s' !! "playerB" = players playingState !! "playerB"
      ∧ dom (players s') = dom (players playingState).
Proof.
  split; [reflexivity|]. eexists. split; [reflexivity|].
  destruct (addressed_action_is_local specInitialGameState playingState
              (UPDATE_SCORE "playerA" 5) _ "playerA" eq_refl eq_refl)
    as (Hother & Hdom & _).
  split; [apply Hother; discriminate|exact Hdom].
Defined.

Lemma update_score_accumulates_witness :
  players playingState !! "playerA" = Some (freshPlayer "playerA")
  ∧ ∃ s2, dispatchAll specInitialGameState playingState
            [UPDATE_SCORE "playerA" 10; UPDATE_SCORE "playerA" (-15)] = Some s2
      ∧ score <$> players s2 !! "playerA" = Some (0 + 10 + -15).
Proof.
  split; [reflexivity|].
  destruct (update_score_accumulates specInitialGameState playingState "playerA"
              (freshPlayer "playerA") 10 (-15) eq_refl)
    as (s2 & Hrun & _ & Hscore & _).
  exists s2. split; [exact Hrun|exact Hscore].
Defined.

Lemma score_history_append_only_witness :
  Forall (λ a, replacesState a = false)
    [PUSH_SCORE_EVENT (mkScoreEvent "playerA" 10 1 None); TICK_TIMER;
     PUSH_SCORE_EVENT (mkScoreEvent "playerB" (-5) 2 None)]
  ∧ ∃ s', dispatchAll specInitialGameState playingState
            [PUSH_SCORE_EVENT (mkScoreEvent "playerA" 10 1 None); TICK_TIMER;
             PUSH_SCORE_EVENT (mkScoreEvent "playerB" (-5) 2 None)] = Some s'
      ∧ scoreHistory s'
        = (scoreHistory playingState
           ++ [mkScoreEvent "playerA" 10 1 None; mkScoreEvent "playerB" (-5) 2 None])%list.
Proof.
  assert (Forall (λ a, replacesState a = false)
            [PUSH_SCORE_EVENT (mkScoreEvent "playerA" 10 1 None); TICK_TIMER;
             PUSH_SCORE_EVENT (mkScoreEvent "playerB" (-5) 2 None)]) as Hall
    by (repeat constructor).
  split; [exact Hall|]. eexists. split; [reflexivity|].
  exact (score_history_append_only specInitialGameState _ playingState _ Hall eq_refl).
Defined.

Lemma special_button_spent_for_good_witness :
  Forall (λ a, writesPlayers a = false) [NEXT_QUESTION; ADD_STRIKE "host"; NEXT_SEGMENT]
  ∧ ∃ s', dispatchAll specInitialGameState playingState
            (USE_SPECIAL_BUTTON "host" "LOCK"
               :: [NEXT_QUESTION; ADD_STRIKE "host"; NEXT_SEGMENT]) = Some s'
      ∧ buttonState s' "host" "LOCK" = Some false.
Proof.
  assert (Forall (λ a, writesPlayers a = false)
            [NEXT_QUESTION; ADD_STRIKE "host"; NEXT_SEGMENT]) as Hall
    by (repeat constructor).
  split; [exact Hall|]. eexists. split; [by vm_compute|].
  apply (special_button_spent_for_good specInitialGameState _ playingState _
           "host" "LOCK" Hall).
  by vm_compute.
Defined.

Lemma repeatable_action_delivered_twice_witness :
  repeatable (START_TIMER 20) = true
  ∧ ∃ s', gameReducer specInitialGameState playingState (START_TIMER 20) = Some s'
      ∧ gameReducer specInitialGameState s' (START_TIMER 20) = Some s'.
Proof.
  split; [reflexivity|]. eexists. split; [reflexivity|].
  exact (repeatable_action_delivered_twice specInitialGameState playingState
           (START_TIMER 20) _ eq_refl eq_refl).
Defined.

Lemma player_keys_under_actions_witness :
  ∃ s', gameReducer specInitialGameState playingState
          (ADD_PLAYER (freshPlayer "guest")) = Some s'
    ∧ dom (players s') = {[ "guest" ]} ∪ dom (players playingState).
Proof.
  eexists. split; [reflexivity|].
  exact (player_keys_under_actions specInitialGameState playingState
           (ADD_PLAYER (freshPlayer "guest")) _ eq_refl).
Defined.

Lemma update_player_patch_witness :
  players playingState !! "playerA" = Some (freshPlayer "playerA")
  ∧ gameReducer specInitialGameState playingState (UPDATE_PLAYER "playerA" emptyPatch)
    = Some playingState.
Proof.
  split; [reflexivity|].
  exact (proj1 (update_player_patch specInitialGameState playingState "playerA"
                  (freshPlayer "playerA") (strikesPatch 2) eq_refl)).
Defined.

Lemma final_scores_stay_on_screen_witness :
  Forall (λ a, assignsPhase a = false) [TICK_TIMER; UPDATE_SCORE "playerB" 3]
  ∧ ∃ s', dispatchAll specInitialGameState playingState
            (COMPLETE_GAME :: [TICK_TIMER; UPDATE_SCORE "playerB" 3]) = Some s'
      ∧ finalScoresRenders s' = true.
Proof.
  assert (Forall (λ a, assignsPhase a = false)
            [TICK_TIMER; UPDATE_SCORE "playerB" 3]) as Hall
    by (repeat constructor).
  split; [exact Hall|]. eexists. split; [by vm_compute|].
  apply (final_scores_stay_on_screen specInitialGameState _ playingState _ Hall).
  by vm_compute.
Defined.

Lemma status_log_keeps_last_ten_witness :
  (length ["old"] ≤ 10)%nat
  ∧ foldl (λ l e, pushStatusLog e l) ["old"] ["a"; "b"; "c"]
    = take 10 (reverse ["a"; "b"; "c"] ++ ["old"]).
Proof.
  assert (length ["old"] ≤ 10)%nat as Hlen by (cbn; lia).
  split; [exact Hlen|].
  exact (proj1 (status_log_keeps_last_ten ["a"; "b"; "c"] ["old"] Hlen)).
Defined.


Lemma add_player_then_lookup_witness :
  (id (freshPlayer "guest") ∉ objectPrototypeNames)
  ∧ ∃ s', gameReducer specInitialGameState playingState
            (ADD_PLAYER (freshPlayer "guest")) = Some s'
      ∧ players s' !! "guest" = Some (freshPlayer "guest").
Proof.
  assert (id (freshPlayer "guest") ∉ objectPrototypeNames) as Hplain
    by (apply (bool_decide_unpack _); by vm_compute).
  split; [exact Hplain|].
  destruct (add_player_then_lookup specInitialGameState playingState
              (freshPlayer "guest") Hplain) as (s' & Hred & Hlook & _).
  exists s'. split; [exact Hred|exact Hlook].
Defined.


Lemma delta_arrival_wipes_later_changes_witness :
  gameId lobbyState ≠ ""
  ∧ Forall (keepsGameId lobbyState)
      [SET_PHASE "PLAYING"; START_TIMER 30; UPDATE_SCORE "playerA" 10]
  ∧ ∃ cur, dispatchAll specInitialGameState lobbyState
             [SET_PHASE "PLAYING"; START_TIMER 30; UPDATE_SCORE "playerA" 10]
           = Some cur
      ∧ phase cur = "PLAYING"
      ∧ dispatchAll specInitialGameState lobbyState
          ([SET_PHASE "PLAYING"; START_TIMER 30; UPDATE_SCORE "playerA" 10]
             ++ [onGameStateUpdate lobbyState (timerDelta 12)])
        = Some (spread lobbyState (timerDelta 12))
      ∧ phase (spread lobbyState (timerDelta 12)) = "LOBBY".
Proof.
  assert (gameId lobbyState ≠ "") as Hid by (by vm_compute).
  assert (Forall (keepsGameId lobbyState)
            [SET_PHASE "PLAYING"; START_TIMER 30; UPDATE_SCORE "playerA" 10])
    as Hall by (repeat constructor).
  split; [exact Hid|]. split; [exact Hall|].
  eexists. split; [by vm_compute|]. split; [by vm_compute|].
  split; [|reflexivity].
  refine (proj1 (proj2 (delta_arrival_wipes_later_changes specInitialGameState
                          lobbyState _ _ (timerDelta 12) Hid Hall _))).
  by vm_compute.
Defined.
